(** * chipStar: the backend-agnostic execution core (src/CHIPBackend.cc)

    A shallow embedding of the allocation tracker, the context's
    allocate/free pair, events, exec items, the device-variable life
    cycle of a module, device selection and the host-callback handshake,
    together with the properties the specification states about them. *)

From Stdlib Require Import ZArith Lia Bool String Sorted.
From stdpp Require Import base option list gmap.

Open Scope Z_scope.

(** ** Machine integers and errors *)

(** [size_t] and [unsigned long] are 64-bit unsigned on the supported
    targets; arithmetic on them wraps. *)
Definition size_max : Z := 2 ^ 64.

Definition wrap64 (z : Z) : Z := z mod size_max.

Definition is_size_t (z : Z) : Prop := 0 <= z < size_max.

(** The [hipError_t] enumerators the modelled code uses. *)
Inductive hipError_t :=
| hipSuccess
| hipErrorMemoryAllocation
| hipErrorInvalidSymbol
| hipErrorInvalidDevicePointer
| hipErrorLaunchFailure
| hipErrorUnknown
| hipErrorTbd.

(** Outcome of a call: a normal return, an exception raised by
    [CHIPERR_LOG_AND_THROW], or a fault (a failed [assert], or a
    dereference the code does not guard). *)
Inductive result (A : Type) :=
| Ok (a : A)
| Throw (e : hipError_t)
| Fault.

Arguments Ok {A} a.
Arguments Throw {A} e.
Arguments Fault {A}.

Definition bind {A B} (r : result A) (k : A -> result B) : result B :=
  match r with
  | Ok a => k a
  | Throw e => Throw e
  | Fault => Fault
  end.

Notation "x <- r ;; k" := (bind r (fun x => k))
  (at level 100, r at next level, right associativity, only parsing).

(** Modelled from the spec: the macro [CHIPERR_LOG_AND_THROW] is defined
    in a header that is not among the sources; it logs the message and
    signals the error condition to the caller by throwing an error that
    carries the given code. *)
Definition CHIPERR_LOG_AND_THROW {A} (e : hipError_t) : result A := Throw e.

Definition assert (b : bool) : result unit := if b then Ok tt else Fault.

(** Going through a pointer that has to be non-null. *)
Definition non_null {A} (p : option A) : result A :=
  match p with
  | Some a => Ok a
  | None => Fault
  end.

(** ** CHIPAllocationTracker *)

Module Tracker.

Record allocation_info := { base_ptr : Z; size : Z }.

Record CHIPAllocationTracker := {
  name : string;
  global_mem_size : Z;
  total_mem_used : Z;
  max_mem_used : Z;
  dev_to_allocation_info : gmap Z allocation_info;
  host_to_dev : gmap Z Z
}.

Definition with_used (t : CHIPAllocationTracker) (used maxu : Z) :=
  {| name := name t;
     global_mem_size := global_mem_size t;
     total_mem_used := used;
     max_mem_used := maxu;
     dev_to_allocation_info := dev_to_allocation_info t;
     host_to_dev := host_to_dev t |}.

Definition with_info (t : CHIPAllocationTracker) (m : gmap Z allocation_info) :=
  {| name := name t;
     global_mem_size := global_mem_size t;
     total_mem_used := total_mem_used t;
     max_mem_used := max_mem_used t;
     dev_to_allocation_info := m;
     host_to_dev := host_to_dev t |}.

(** The constructor. *)
Definition create (global_mem_size_ : Z) (name_ : string) : CHIPAllocationTracker :=
  {| name := name_;
     global_mem_size := global_mem_size_;
     total_mem_used := 0;
     max_mem_used := 0;
     dev_to_allocation_info := ∅;
     host_to_dev := ∅ |}.

Definition reserveMem (bytes : Z) (t : CHIPAllocationTracker)
  : result (bool * CHIPAllocationTracker) :=
  if bytes <=? wrap64 (global_mem_size t - total_mem_used t) then
    let used := wrap64 (total_mem_used t + bytes) in
    let maxu := if used >? max_mem_used t then used else max_mem_used t in
    Ok (true, with_used t used maxu)
  else CHIPERR_LOG_AND_THROW hipErrorMemoryAllocation.

Definition releaseMemReservation (bytes : Z) (t : CHIPAllocationTracker)
  : bool * CHIPAllocationTracker :=
  if total_mem_used t >=? bytes then
    (true, with_used t (wrap64 (total_mem_used t - bytes)) (max_mem_used t))
  else (false, t).

Definition recordAllocation (dev_ptr size_ : Z) (t : CHIPAllocationTracker)
  : CHIPAllocationTracker :=
  with_info t (<[dev_ptr := {| base_ptr := dev_ptr; size := size_ |}]>
                 (dev_to_allocation_info t)).

Definition getByDevPtr (dev_ptr : Z) (t : CHIPAllocationTracker)
  : result allocation_info :=
  match dev_to_allocation_info t !! dev_ptr with
  | None => CHIPERR_LOG_AND_THROW hipErrorTbd
  | Some info => Ok info
  end.

Definition getByHostPtr (host_ptr : Z) (t : CHIPAllocationTracker)
  : result allocation_info :=
  match host_to_dev t !! host_ptr with
  | None => CHIPERR_LOG_AND_THROW hipErrorInvalidSymbol
  | Some dev_ptr => getByDevPtr dev_ptr t
  end.

(** A caller's view of one call on the tracker.  A [reserveMem] that
    throws leaves the tracker as it was; the caller goes on with it. *)
Inductive call :=
| call_reserveMem (bytes : Z)
| call_releaseMemReservation (bytes : Z).

Definition call_arg (c : call) : Z :=
  match c with
  | call_reserveMem b => b
  | call_releaseMemReservation b => b
  end.

Definition after_call (t : CHIPAllocationTracker) (c : call) : CHIPAllocationTracker :=
  match c with
  | call_reserveMem bytes =>
      match reserveMem bytes t with
      | Ok (_, t') => t'
      | _ => t
      end
  | call_releaseMemReservation bytes => snd (releaseMemReservation bytes t)
  end.

(** The tracker after each call of a sequence, in order. *)
Fixpoint states_after (t : CHIPAllocationTracker) (cs : list call)
  : list CHIPAllocationTracker :=
  match cs with
  | [] => []
  | c :: cs' => after_call t c :: states_after (after_call t c) cs'
  end.

(** A run that meets a refused reservation and a refused release. *)
Definition sample_calls : list call :=
  [ call_reserveMem 60; call_reserveMem 50; call_releaseMemReservation 70;
    call_releaseMemReservation 20; call_reserveMem 40; call_reserveMem 1 ].

(** The ledger invariant. *)
Definition within_capacity (t : CHIPAllocationTracker) : Prop :=
  0 <= total_mem_used t <= global_mem_size t.

Definition well_formed (t : CHIPAllocationTracker) : Prop :=
  is_size_t (global_mem_size t) /\ within_capacity t.

End Tracker.

(** ** CHIPDevice and the backend's device list *)

Module Device.

Import Tracker.

(** The fields of [hipDeviceProp_t] that the code reads: the name, the
    fourteen fields that [findDeviceMatchingProps] compares, and the
    fields that only [getAttr] reads ([clockRate] and those after it).
    The [int] arrays are lists; the two [unsigned int *] fields are
    addresses. *)
Record hipDeviceProp_t := {
  prop_name : string;
  major : Z;
  minor : Z;
  totalGlobalMem : Z;
  sharedMemPerBlock : Z;
  maxThreadsPerBlock : Z;
  totalConstMem : Z;
  multiProcessorCount : Z;
  maxThreadsPerMultiProcessor : Z;
  memoryClockRate : Z;
  memoryBusWidth : Z;
  l2CacheSize : Z;
  regsPerBlock : Z;
  maxSharedMemoryPerMultiProcessor : Z;
  warpSize : Z;
  maxThreadsDim : list Z;
  maxGridSize : list Z;
  clockRate : Z;
  computeMode : Z;
  pciBusID : Z;
  concurrentKernels : Z;
  pciDeviceID : Z;
  isMultiGpuBoard : Z;
  cooperativeLaunch : Z;
  cooperativeMultiDeviceLaunch : Z;
  integrated : Z;
  maxTexture1D : Z;
  maxTexture2D : list Z;
  maxTexture3D : list Z;
  hdpMemFlushCntl : Z;
  hdpRegFlushCntl : Z;
  memPitch : Z;
  textureAlignment : Z;
  texturePitchAlignment : Z;
  kernelExecTimeoutEnabled : Z;
  canMapHostMemory : Z;
  ECCEnabled : Z;
  cooperativeMultiDeviceUnmatchedFunc : Z;
  cooperativeMultiDeviceUnmatchedGridDim : Z;
  cooperativeMultiDeviceUnmatchedBlockDim : Z;
  cooperativeMultiDeviceUnmatchedSharedMem : Z;
  asicRevision : Z;
  managedMemory : Z;
  directManagedMemAccessFromHost : Z;
  concurrentManagedAccess : Z;
  pageableMemoryAccess : Z;
  pageableMemoryAccessUsesHostPageTables : Z
}.

(** [hipDeviceProp_t p = {0}]. *)
Definition zero_props : hipDeviceProp_t :=
  {| prop_name := ""; major := 0; minor := 0; totalGlobalMem := 0;
     sharedMemPerBlock := 0; maxThreadsPerBlock := 0; totalConstMem := 0;
     multiProcessorCount := 0; maxThreadsPerMultiProcessor := 0;
     memoryClockRate := 0; memoryBusWidth := 0; l2CacheSize := 0;
     regsPerBlock := 0; maxSharedMemoryPerMultiProcessor := 0; warpSize := 0;
     maxThreadsDim := [0; 0; 0]; maxGridSize := [0; 0; 0]; clockRate := 0;
     computeMode := 0; pciBusID := 0; concurrentKernels := 0;
     pciDeviceID := 0; isMultiGpuBoard := 0; cooperativeLaunch := 0;
     cooperativeMultiDeviceLaunch := 0; integrated := 0; maxTexture1D := 0;
     maxTexture2D := [0; 0]; maxTexture3D := [0; 0; 0]; hdpMemFlushCntl := 0;
     hdpRegFlushCntl := 0; memPitch := 0; textureAlignment := 0;
     texturePitchAlignment := 0; kernelExecTimeoutEnabled := 0;
     canMapHostMemory := 0; ECCEnabled := 0;
     cooperativeMultiDeviceUnmatchedFunc := 0;
     cooperativeMultiDeviceUnmatchedGridDim := 0;
     cooperativeMultiDeviceUnmatchedBlockDim := 0;
     cooperativeMultiDeviceUnmatchedSharedMem := 0; asicRevision := 0;
     managedMemory := 0; directManagedMemAccessFromHost := 0;
     concurrentManagedAccess := 0; pageableMemoryAccess := 0;
     pageableMemoryAccessUsesHostPageTables := 0 |}.

(** A device object.  [ctx] is the address of its context; the tracker
    pointer is null until [populateDeviceProperties] has run. *)
Record CHIPDevice := {
  idx : Z;
  ctx : Z;
  hip_device_props : hipDeviceProp_t;
  allocation_tracker : option CHIPAllocationTracker
}.

Definition with_tracker (d : CHIPDevice) (t : CHIPAllocationTracker) : CHIPDevice :=
  {| idx := idx d; ctx := ctx d; hip_device_props := hip_device_props d;
     allocation_tracker := Some t |}.

Definition copyDeviceProperties (d : CHIPDevice) : hipDeviceProp_t :=
  hip_device_props d.

Definition populateDeviceProperties (d : CHIPDevice) : CHIPDevice :=
  match allocation_tracker d with
  | Some _ => d
  | None =>
      with_tracker d (create (totalGlobalMem (hip_device_props d))
                             (prop_name (hip_device_props d)))
  end.

Definition getGlobalMemSize (d : CHIPDevice) : Z :=
  totalGlobalMem (hip_device_props d).

Definition getUsedGlobalMem (d : CHIPDevice) : result Z :=
  t <- non_null (allocation_tracker d) ;; Ok (total_mem_used t).

(** The backend's devices.  A [CHIPDevice *] is the position of the
    object in [chip_devices]; [active_dev] is null ([None]) or such a
    position. *)
Record CHIPBackend := {
  chip_devices : list CHIPDevice;
  active_dev : option nat
}.

Definition getActiveDevice (B : CHIPBackend) : result nat :=
  match active_dev B with
  | None => CHIPERR_LOG_AND_THROW hipErrorUnknown
  | Some p => Ok p
  end.

Definition deref (B : CHIPBackend) (p : nat) : result CHIPDevice :=
  non_null (chip_devices B !! p).

Definition store (B : CHIPBackend) (p : nat) (d : CHIPDevice) : CHIPBackend :=
  {| chip_devices := <[p := d]> (chip_devices B); active_dev := active_dev B |}.

(** The tracker of the active device, when there is one. *)
Definition active_tracker (B : CHIPBackend) : option CHIPAllocationTracker :=
  p ← active_dev B; d ← chip_devices B !! p; allocation_tracker d.

End Device.

(** ** CHIPContext: allocate and free *)

Module Context.

Import Tracker Device.

(** The memory kinds of CHIPBackend.hh, which is not among the sources;
    the modelled code only names [Shared], and [allocate] passes the
    kind on to the native allocator untouched. *)
Inductive CHIPMemoryType := Host | Dev | Shared.

Definition nullptr : Z := 0.

Section Native.

(** The backend's native allocator: [allocate_] and [free_] are pure
    virtual in the context and supplied by each backend.  They act on
    the driver's own state. *)
Context {driver : Type}.
Variable allocate_ : Z -> Z -> CHIPMemoryType -> driver -> Z * driver.
Variable free_ : Z -> driver -> driver.

(** [this] is the address of the context the method is called on. *)
Definition allocate (this size alignment : Z) (mem_type : CHIPMemoryType)
           (B : CHIPBackend) (drv : driver)
  : result (Z * CHIPBackend * driver) :=
  chip_dev <- getActiveDevice B ;;
  d <- deref B chip_dev ;;
  _ <- assert (ctx d =? this) ;;
  t <- non_null (allocation_tracker d) ;;
  r <- reserveMem size t ;;
  let '(reserved, t1) := r in
  if negb reserved then
    Ok (nullptr, store B chip_dev (with_tracker d t1), drv)
  else
    let '(allocated_ptr, drv') := allocate_ size alignment mem_type drv in
    let t2 :=
      if allocated_ptr =? nullptr
      then snd (releaseMemReservation size t1)
      else t1 in
    let t3 := recordAllocation allocated_ptr size t2 in
    Ok (allocated_ptr, store B chip_dev (with_tracker d t3), drv').

(** [getByDevPtr] returns the address of a map entry or throws, so the
    test [if (!info)] of the source never fires. *)
Definition free (ptr : Z) (B : CHIPBackend) (drv : driver)
  : result (hipError_t * CHIPBackend * driver) :=
  chip_dev <- getActiveDevice B ;;
  d <- deref B chip_dev ;;
  t <- non_null (allocation_tracker d) ;;
  info <- getByDevPtr ptr t ;;
  let t1 := snd (releaseMemReservation (size info) t) in
  Ok (hipSuccess, store B chip_dev (with_tracker d t1), free_ ptr drv).

End Native.

(** Two drivers to run the code on: one whose allocator always fails,
    and a bump allocator that hands out addresses from [fst] on and logs
    the pointers passed to [free_]. *)
Definition failing_allocate_ (size alignment : Z) (mem_type : CHIPMemoryType)
           (drv : Z * list Z) : Z * (Z * list Z) :=
  (nullptr, drv).

Definition bump_allocate_ (size alignment : Z) (mem_type : CHIPMemoryType)
           (drv : Z * list Z) : Z * (Z * list Z) :=
  (fst drv, (fst drv + size, snd drv)).

Definition log_free_ (ptr : Z) (drv : Z * list Z) : Z * list Z :=
  (fst drv, snd drv ++ [ptr]).

(** A backend with one device of 100 bytes, active, in context 1. *)
Definition one_device (used : Z) : CHIPBackend :=
  {| chip_devices :=
       [ {| idx := 0; ctx := 1; hip_device_props := zero_props;
            allocation_tracker := Some (with_used (create 100 "gpu") used used) |} ];
     active_dev := Some 0%nat |}.

(** The same device with 20 bytes reserved and a record of 10 bytes at
    address 4096. *)
Definition recorded_tracker : CHIPAllocationTracker :=
  recordAllocation 4096 10 (with_used (create 100 "gpu") 20 20).

Definition recorded_device : CHIPDevice :=
  {| idx := 0; ctx := 1; hip_device_props := zero_props;
     allocation_tracker := Some recorded_tracker |}.

Definition one_allocation : CHIPBackend :=
  {| chip_devices := [recorded_device]; active_dev := Some 0%nat |}.

(** Two allocations of 10 bytes, then the first pointer freed twice. *)
Definition free_twice : result (hipError_t * CHIPBackend * (Z * list Z)) :=
  r1 <- allocate bump_allocate_ 1 10 8 Shared (one_device 0) (4096, []) ;;
  r2 <- allocate bump_allocate_ 1 10 8 Shared (snd (fst r1)) (snd r1) ;;
  r3 <- free log_free_ (fst (fst r1)) (snd (fst r2)) (snd r2) ;;
  free log_free_ (fst (fst r1)) (snd (fst r3)) (snd r3).

(** The same with a single free. *)
Definition free_once : result (hipError_t * CHIPBackend * (Z * list Z)) :=
  r1 <- allocate bump_allocate_ 1 10 8 Shared (one_device 0) (4096, []) ;;
  r2 <- allocate bump_allocate_ 1 10 8 Shared (snd (fst r1)) (snd r1) ;;
  free log_free_ (fst (fst r1)) (snd (fst r2)) (snd r2).

End Context.

(** ** CHIPEvent *)

Module Event.

(** Modelled from the spec: the event status enumeration, declared in
    CHIPBackend.hh, which is not among the sources.  The code names
    [EVENT_STATUS_INIT] and [EVENT_STATUS_RECORDING]; the specification
    gives the life cycle INIT, RECORDING, COMPLETE. *)
Inductive event_status_e :=
| EVENT_STATUS_INIT
| EVENT_STATUS_RECORDING
| EVENT_STATUS_COMPLETE.

Section Actions.

(** A deferred action is a [std::function<void()>]: it acts on the
    rest of the program's state, of type [W]. *)
Context {W : Type}.

Definition ActionFn := W -> W.

Record CHIPEvent := {
  event_status : event_status_e;
  native_handle : Z;
  refc : Z;
  Actions_ : list ActionFn
}.

Definition with_status (e : CHIPEvent) (s : event_status_e) : CHIPEvent :=
  {| event_status := s; native_handle := native_handle e; refc := refc e;
     Actions_ := Actions_ e |}.

Definition with_actions (e : CHIPEvent) (l : list ActionFn) : CHIPEvent :=
  {| event_status := event_status e; native_handle := native_handle e;
     refc := refc e; Actions_ := l |}.

(** The constructor: a new event is in state INIT with one reference. *)
Definition create (handle : Z) : CHIPEvent :=
  {| event_status := EVENT_STATUS_INIT; native_handle := handle; refc := 1;
     Actions_ := [] |}.

(** A queue, as far as an event sees it: its last event, or null. *)
Record CHIPQueue := { LastEvent : option CHIPEvent }.

Definition getLastEvent (q : CHIPQueue) : option CHIPEvent := LastEvent q.

(** [takeOver] is supplied by each backend. *)
Variable takeOver : CHIPEvent -> CHIPEvent -> CHIPEvent.

Definition recordStream (chip_queue : CHIPQueue) (this : CHIPEvent)
  : result CHIPEvent :=
  match getLastEvent chip_queue with
  | None => Fault
  | Some last => Ok (with_status (takeOver this last) EVENT_STATUS_RECORDING)
  end.

(** Modelled from the spec: [isFinished] of the base event class, which
    is declared in CHIPBackend.hh: an event is finished when its status
    is COMPLETE. *)
Definition isFinished (e : CHIPEvent) : bool :=
  match event_status e with
  | EVENT_STATUS_COMPLETE => true
  | _ => false
  end.

Definition addAction (Action : ActionFn) (e : CHIPEvent) : CHIPEvent :=
  with_actions e (Actions_ e ++ [Action]).

(** [for (auto &Action : Actions_) Action();] *)
Definition run_actions (l : list ActionFn) (w : W) : W :=
  foldl (fun w' Action => Action w') w l.

Definition doActions (e : CHIPEvent) (w : W) : result (CHIPEvent * W) :=
  _ <- assert (isFinished e) ;;
  Ok (with_actions e [], run_actions (Actions_ e) w).

End Actions.

Arguments CHIPEvent W : clear implicits.
Arguments CHIPQueue W : clear implicits.
Arguments ActionFn W : clear implicits.

(** A backend whose [takeOver] adopts the native handle of the other
    event. *)
Definition takeOver_handle {W} (this other : CHIPEvent W) : CHIPEvent W :=
  {| event_status := event_status this; native_handle := native_handle other;
     refc := refc this; Actions_ := Actions_ this |}.

(** An action that leaves its number in a log. *)
Definition log_action (n : nat) : ActionFn (list nat) := fun log => log ++ [n].

(** An event that has completed, with handle [h]. *)
Definition completed_event {W} (h : Z) : CHIPEvent W :=
  with_status (create h) EVENT_STATUS_COMPLETE.

(** A queue whose last event has handle [h]. *)
Definition queue_with_last {W} (h : Z) : CHIPQueue W :=
  {| LastEvent := Some (with_status (create h) EVENT_STATUS_RECORDING) |}.

End Event.

(** ** CHIPExecItem: the serialized argument buffer *)

Module ExecItem.

Definition uint8_t := Byte.byte.

Record CHIPExecItem := {
  shared_mem : Z;
  chip_queue : Z;
  arg_data : list uint8_t;
  offset_sizes : list (Z * Z)
}.

(** A fresh exec item has an empty argument buffer. *)
Definition create (shared_mem_ chip_queue_ : Z) : CHIPExecItem :=
  {| shared_mem := shared_mem_; chip_queue := chip_queue_;
     arg_data := []; offset_sizes := [] |}.

(** [std::vector::resize]: shrink, or grow with zero bytes. *)
Definition resize (n : nat) (v : list uint8_t) : list uint8_t :=
  take n v ++ replicate (n - length v) Byte.x00.

(** [std::memcpy(dst.data() + offset, src, size)], for a range inside
    [dst] and a source of at least [size] bytes. *)
Definition memcpy (dst : list uint8_t) (offset : nat) (src : list uint8_t)
           (size : nat) : list uint8_t :=
  take offset dst ++ take size src ++ drop (offset + size) dst.

Definition getArgData (ei : CHIPExecItem) : list uint8_t := arg_data ei.

(** [arg] is the memory the argument pointer points to.  Copying out of
    the buffer's range, or reading more than [arg] holds, is a fault. *)
Definition setArg (arg : list uint8_t) (size offset : Z) (ei : CHIPExecItem)
  : result CHIPExecItem :=
  let data :=
    if wrap64 (offset + size) >? Z.of_nat (length (arg_data ei))
    then resize (Z.to_nat (wrap64 (offset + size + 1024))) (arg_data ei)
    else arg_data ei in
  _ <- assert ((offset + size <=? Z.of_nat (length data))
               && (size <=? Z.of_nat (length arg))) ;;
  Ok {| shared_mem := shared_mem ei;
        chip_queue := chip_queue ei;
        arg_data := memcpy data (Z.to_nat offset) arg (Z.to_nat size);
        offset_sizes := offset_sizes ei ++ [(offset, size)] |}.

(** One [setArg] call: the argument's bytes, size and offset. *)
Record arg_call := { call_arg : list uint8_t; call_size : Z; call_offset : Z }.

Fixpoint setArgs (calls : list arg_call) (ei : CHIPExecItem) : result CHIPExecItem :=
  match calls with
  | [] => Ok ei
  | c :: rest =>
      ei' <- setArg (call_arg c) (call_size c) (call_offset c) ei ;;
      setArgs rest ei'
  end.

(** The [size] bytes of a buffer from [offset] on. *)
Definition bytes_at (offset size : Z) (v : list uint8_t) : list uint8_t :=
  take (Z.to_nat size) (drop (Z.to_nat offset) v).

(** A call the code handles without wrap-around: offset and size are
    in range with room for the 1024 spare bytes, and the argument holds
    exactly [size] bytes. *)
Definition call_ok (c : arg_call) : Prop :=
  0 <= call_offset c /\ 0 <= call_size c
  /\ call_offset c + call_size c + 1024 < size_max
  /\ Z.of_nat (length (call_arg c)) = call_size c.

(** The byte ranges of two calls do not overlap. *)
Definition apart (c1 c2 : arg_call) : Prop :=
  call_offset c1 + call_size c1 <= call_offset c2
  \/ call_offset c2 + call_size c2 <= call_offset c1.

(** The buffer holds the argument of a call at the call's offset. *)
Definition arg_in_place (v : list uint8_t) (c : arg_call) : Prop :=
  bytes_at (call_offset c) (call_size c) v = call_arg c.

(** The three calls of the round trip: offsets 0, 8, 16 and sizes 4, 8, 4. *)
Definition three_calls (a0 a1 a2 : list uint8_t) : list arg_call :=
  [ {| call_arg := a0; call_size := 4; call_offset := 0 |};
    {| call_arg := a1; call_size := 8; call_offset := 8 |};
    {| call_arg := a2; call_size := 4; call_offset := 16 |} ].

End ExecItem.

(** ** CHIPModule: the device-variable life cycle *)

Module DeviceVars.

Import Tracker Device Context.

Record CHIPDeviceVar := {
  Name : string;
  Size : Z;
  DevAddr : Z;
  HasInitializer : bool
}.

Definition setDevAddr (addr : Z) (v : CHIPDeviceVar) : CHIPDeviceVar :=
  {| Name := Name v; Size := Size v; DevAddr := addr;
     HasInitializer := HasInitializer v |}.

Definition markHasInitializer (b : bool) (v : CHIPDeviceVar) : CHIPDeviceVar :=
  {| Name := Name v; Size := Size v; DevAddr := DevAddr v;
     HasInitializer := b |}.

Record CHIPKernel := { host_f_name : string }.

Record CHIPModule := {
  chip_kernels : list CHIPKernel;
  chip_vars : list CHIPDeviceVar;
  DeviceVariablesAllocated : bool;
  DeviceVariablesInitialized : bool
}.

Definition with_flags (m : CHIPModule) (vars : list CHIPDeviceVar)
           (allocated initialized : bool) : CHIPModule :=
  {| chip_kernels := chip_kernels m; chip_vars := vars;
     DeviceVariablesAllocated := allocated;
     DeviceVariablesInitialized := initialized |}.

(** What a queue is asked to do. *)
Inductive queue_op :=
| Launch (kernel : string) (args : list Z)
| MemCopyAsync (dst src size : Z)
| Finish.

Definition is_launch (o : queue_op) : bool :=
  match o with Launch _ _ => true | _ => false end.

Definition is_finish (o : queue_op) : bool :=
  match o with Finish => true | _ => false end.

(** The part of the runtime the life cycle acts on: the backend's
    devices, the driver behind the native allocator, and the operations
    submitted to the queue so far, oldest first. *)
Record runtime (driver : Type) := {
  backend : CHIPBackend;
  drv : driver;
  submitted : list queue_op
}.

Arguments backend {driver} r.
Arguments drv {driver} r.
Arguments submitted {driver} r.

Section Lifecycle.

Context {driver : Type}.
Variable allocate_ : Z -> Z -> CHIPMemoryType -> driver -> Z * driver.
Variable free_ : Z -> driver -> driver.

(** Constants of CHIPBackend.hh: the shadow-kernel name prefixes and the
    size of one [CHIPVarInfo] slot. *)
Variables ChipVarInfoPrefix ChipVarBindPrefix ChipVarInitPrefix : string.
Variable sizeof_CHIPVarInfo : Z.

(** What the info shadow kernel of a variable writes into its slot, as
    read back on the host: size, alignment, has-initializer. *)
Variable var_info : string -> Z * Z * Z.

(** Address of the host copy of the info buffer. *)
Variable VarInfoBufH : Z.

Definition M (A : Type) : Type := runtime driver -> result (A * runtime driver).

Definition ret {A} (a : A) : M A := fun rt => Ok (a, rt).

Definition mbind {A B} (m : M A) (k : A -> M B) : M B :=
  fun rt => match m rt with
            | Ok (a, rt') => k a rt'
            | Throw e => Throw e
            | Fault => Fault
            end.

Definition lift {A} (r : result A) : M A :=
  fun rt => match r with
            | Ok a => Ok (a, rt)
            | Throw e => Throw e
            | Fault => Fault
            end.

Notation "x <~ m ;; k" := (mbind m (fun x => k))
  (at level 100, m at next level, right associativity, only parsing).

Definition submit (o : queue_op) : M unit :=
  fun rt => Ok (tt, {| backend := backend rt; drv := drv rt;
                       submitted := submitted rt ++ [o] |}).

(** [Ctx->allocate(size, alignment, mem_type)] on the runtime. *)
Definition ctx_allocate (Ctx size alignment : Z) (mem_type : CHIPMemoryType) : M Z :=
  fun rt =>
    match allocate allocate_ Ctx size alignment mem_type (backend rt) (drv rt) with
    | Ok (p, B, dr) =>
        Ok (p, {| backend := B; drv := dr; submitted := submitted rt |})
    | Throw e => Throw e
    | Fault => Fault
    end.

Definition ctx_free (ptr : Z) : M hipError_t :=
  fun rt =>
    match free free_ ptr (backend rt) (drv rt) with
    | Ok (e, B, dr) =>
        Ok (e, {| backend := B; drv := dr; submitted := submitted rt |})
    | Throw e => Throw e
    | Fault => Fault
    end.

Definition getContext (Device : nat) : M Z :=
  fun rt => match deref (backend rt) Device with
            | Ok d => Ok (ctx d, rt)
            | Throw e => Throw e
            | Fault => Fault
            end.

Definition getKernel (name : string) (m : CHIPModule) : result CHIPKernel :=
  match List.find (fun k => String.eqb (host_f_name k) name) (chip_kernels m) with
  | Some k => Ok k
  | None => CHIPERR_LOG_AND_THROW hipErrorLaunchFailure
  end.

Definition queueKernel (Q : Z) (K : CHIPKernel) (Args : list Z) : M unit :=
  _ <~ lift (assert (negb (Q =? 0))) ;;
  submit (Launch (host_f_name K) Args).

Definition queueVariableInfoShadowKernel (Q : Z) (m : CHIPModule)
           (Var : CHIPDeviceVar) (InfoBuffer : Z) : M unit :=
  _ <~ lift (assert (negb (InfoBuffer =? 0))) ;;
  K <~ lift (getKernel (ChipVarInfoPrefix ++ Name Var) m) ;;
  queueKernel Q K [InfoBuffer].

Definition queueVariableBindShadowKernel (Q : Z) (m : CHIPModule)
           (Var : CHIPDeviceVar) : M unit :=
  let DevPtr := DevAddr Var in
  _ <~ lift (assert (negb (DevPtr =? 0))) ;;
  K <~ lift (getKernel (ChipVarBindPrefix ++ Name Var) m) ;;
  queueKernel Q K [DevPtr].

Definition queueVariableInitShadowKernel (Q : Z) (m : CHIPModule)
           (Var : CHIPDeviceVar) : M unit :=
  K <~ lift (getKernel (ChipVarInitPrefix ++ Name Var) m) ;;
  queueKernel Q K [].

(** First loop of the allocation: one info kernel per variable, the
    [I]-th writing to slot [I] of the device buffer. *)
Fixpoint queue_info_kernels (Q : Z) (m : CHIPModule) (VarInfoBufD : Z)
         (I : Z) (vars : list CHIPDeviceVar) : M unit :=
  match vars with
  | [] => ret tt
  | Var :: rest =>
      _ <~ queueVariableInfoShadowKernel Q m Var
             (wrap64 (VarInfoBufD + I * sizeof_CHIPVarInfo)) ;;
      queue_info_kernels Q m VarInfoBufD (I + 1) rest
  end.

(** Second loop: storage for each variable and its bind kernel. *)
Fixpoint allocate_storage (Q Ctx : Z) (m : CHIPModule)
         (vars : list CHIPDeviceVar) : M (list CHIPDeviceVar) :=
  match vars with
  | [] => ret []
  | Var :: rest =>
      let '(Size_, Alignment, HasInit) := var_info (Name Var) in
      _ <~ lift (assert (negb (Size_ =? 0))) ;;
      _ <~ lift (assert (negb (Alignment =? 0))) ;;
      addr <~ ctx_allocate Ctx Size_ Alignment Shared ;;
      let Var' := markHasInitializer (negb (HasInit =? 0)) (setDevAddr addr Var) in
      _ <~ lift (assert (Size Var' =? Size_)) ;;
      _ <~ queueVariableBindShadowKernel Q m Var' ;;
      rest' <~ allocate_storage Q Ctx m rest ;;
      ret (Var' :: rest')
  end.

Definition allocateDeviceVariablesNoLock (Device : nat) (Queue : Z)
           (m : CHIPModule) : M (hipError_t * CHIPModule) :=
  let allocated := DeviceVariablesAllocated m || bool_decide (chip_vars m = []) in
  let m1 := with_flags m (chip_vars m) allocated (DeviceVariablesInitialized m) in
  if allocated then ret (hipSuccess, m1)
  else
    let VarInfoBufSize :=
      wrap64 (sizeof_CHIPVarInfo * Z.of_nat (length (chip_vars m1))) in
    Ctx <~ getContext Device ;;
    VarInfoBufD <~ ctx_allocate Ctx VarInfoBufSize 0 Shared ;;
    _ <~ lift (assert (negb (VarInfoBufD =? 0))) ;;
    _ <~ queue_info_kernels Queue m1 VarInfoBufD 0 (chip_vars m1) ;;
    _ <~ submit (MemCopyAsync VarInfoBufH VarInfoBufD VarInfoBufSize) ;;
    _ <~ submit Finish ;;
    vars <~ allocate_storage Queue Ctx m1 (chip_vars m1) ;;
    _ <~ submit Finish ;;
    ret (hipSuccess, with_flags m1 vars true (DeviceVariablesInitialized m1)).

(** The initialisation loop; the flag tells whether a kernel was queued. *)
Fixpoint queue_init_kernels (Q : Z) (m : CHIPModule)
         (vars : list CHIPDeviceVar) (QueuedKernels : bool) : M bool :=
  match vars with
  | [] => ret QueuedKernels
  | Var :: rest =>
      if negb (HasInitializer Var) then queue_init_kernels Q m rest QueuedKernels
      else
        _ <~ queueVariableInitShadowKernel Q m Var ;;
        queue_init_kernels Q m rest true
  end.

Definition initializeDeviceVariablesNoLock (Device : nat) (Queue : Z)
           (m : CHIPModule) : M CHIPModule :=
  r <~ allocateDeviceVariablesNoLock Device Queue m ;;
  let m1 := snd r in
  let initialized :=
    DeviceVariablesInitialized m1 || bool_decide (chip_vars m1 = []) in
  let m2 := with_flags m1 (chip_vars m1) (DeviceVariablesAllocated m1) initialized in
  if initialized then
    _ <~ lift (assert (DeviceVariablesAllocated m2)) ;;
    ret m2
  else
    QueuedKernels <~ queue_init_kernels Queue m2 (chip_vars m2) false ;;
    _ <~ (if QueuedKernels then submit Finish else ret tt) ;;
    ret (with_flags m2 (chip_vars m2) (DeviceVariablesAllocated m2) true).

Definition invalidateDeviceVariablesNoLock (m : CHIPModule) : CHIPModule :=
  with_flags m (chip_vars m) (DeviceVariablesAllocated m) false.

Fixpoint free_storage (vars : list CHIPDeviceVar) : M (list CHIPDeviceVar) :=
  match vars with
  | [] => ret []
  | Var :: rest =>
      _ <~ ctx_free (DevAddr Var) ;;
      rest' <~ free_storage rest ;;
      ret (setDevAddr 0 Var :: rest')
  end.

Definition deallocateDeviceVariablesNoLock (m : CHIPModule) : M CHIPModule :=
  let m1 := invalidateDeviceVariablesNoLock m in
  vars <~ free_storage (chip_vars m1) ;;
  ret (with_flags m1 vars false (DeviceVariablesInitialized m1)).

End Lifecycle.

(** A module that declares no device variable, with both flags down. *)
Definition empty_module : CHIPModule :=
  {| chip_kernels := [ {| host_f_name := "saxpy" |} ]; chip_vars := [];
     DeviceVariablesAllocated := false; DeviceVariablesInitialized := false |}.

(** A module with one variable [x] of 4 bytes and its shadow kernels. *)
Definition one_var_module : CHIPModule :=
  {| chip_kernels := [ {| host_f_name := "__chip_var_info_x" |};
                       {| host_f_name := "__chip_var_bind_x" |};
                       {| host_f_name := "__chip_var_init_x" |} ];
     chip_vars := [ {| Name := "x"; Size := 4; DevAddr := 0;
                       HasInitializer := false |} ];
     DeviceVariablesAllocated := false; DeviceVariablesInitialized := false |}.

(** A runtime with one device and nothing submitted yet. *)
Definition idle_runtime : runtime (Z * list Z) :=
  {| backend := one_device 0; drv := (4096, []); submitted := [] |}.

(** The life cycle on the bump allocator, with 24-byte info slots and
    every variable reported as 4 bytes, 4-aligned, with an initialiser. *)
Definition sample_allocate :=
  allocateDeviceVariablesNoLock bump_allocate_
    "__chip_var_info_" "__chip_var_bind_" 24 (fun _ => (4, 4, 1)) 65536.

Definition sample_initialize :=
  initializeDeviceVariablesNoLock bump_allocate_
    "__chip_var_info_" "__chip_var_bind_" "__chip_var_init_" 24
    (fun _ => (4, 4, 1)) 65536.

End DeviceVars.

(** ** CHIPBackend::findDeviceMatchingProps *)

Module Matching.

Import Device.

(** A local pointer variable declared without an initialiser holds an
    indeterminate value until it is assigned. *)
Inductive local_ptr :=
| indeterminate
| points_to (p : nat).

(** One requested field: [validPropCount] and [matchedCount] after the
    check of that field. *)
Definition check_prop (requested current : Z) (counts : Z * Z) : Z * Z :=
  let '(validPropCount, matchedCount) := counts in
  if negb (requested =? 0) then
    (validPropCount + 1,
     if current >=? requested then matchedCount + 1 else matchedCount)
  else (validPropCount, matchedCount).

(** The fields in the order the function checks them. *)
Definition checked_fields : list (hipDeviceProp_t -> Z) :=
  [ major; minor; totalGlobalMem; sharedMemPerBlock; maxThreadsPerBlock;
    totalConstMem; multiProcessorCount; maxThreadsPerMultiProcessor;
    memoryClockRate; memoryBusWidth; l2CacheSize; regsPerBlock;
    maxSharedMemoryPerMultiProcessor; warpSize ].

Definition check_fields (fields : list (hipDeviceProp_t -> Z))
           (properties currentProp : hipDeviceProp_t) (counts : Z * Z) : Z * Z :=
  foldl (fun c field => check_prop (field properties) (field currentProp) c)
        counts fields.

(** The two counters at the end of one iteration of the device loop. *)
Definition count_props (properties currentProp : hipDeviceProp_t) : Z * Z :=
  check_fields checked_fields properties currentProp (0, 0).

(** The device loop, from position [p] of [chip_devices] on. *)
Fixpoint device_loop (properties : hipDeviceProp_t) (devs : list CHIPDevice)
         (p : nat) (matched_device : local_ptr) (maxMatchedCount : Z) : local_ptr :=
  match devs with
  | [] => matched_device
  | dev :: rest =>
      let currentProp := copyDeviceProperties dev in
      let '(validPropCount, matchedCount) := count_props properties currentProp in
      if validPropCount =? matchedCount then
        device_loop properties rest (S p)
          (if matchedCount >? maxMatchedCount then points_to p else matched_device)
          (Z.max matchedCount maxMatchedCount)
      else device_loop properties rest (S p) matched_device maxMatchedCount
  end.

Definition findDeviceMatchingProps (properties : hipDeviceProp_t)
           (B : CHIPBackend) : local_ptr :=
  device_loop properties (chip_devices B) 0 indeterminate 0.

(** *** What a request asks of a device

    The definitions from here to [met_compared] say what it is for a
    device to satisfy a request.  They name the fields of
    [hipDeviceProp_t] one by one and do not refer to the loop above. *)

(** A device meets one field of a request when the field is not
    requested (zero) or the device's value is at least the requested one. *)
Definition field_met (properties currentProp : hipDeviceProp_t)
           (field : hipDeviceProp_t -> Z) : Prop :=
  field properties = 0 \/ field properties <= field currentProp.

(** A device meets the compared part of a request when it meets each of
    these fourteen fields.  No other field of the request ([clockRate],
    [maxThreadsDim], [pciBusID], ...) takes part. *)
Definition meets_compared (properties : hipDeviceProp_t) (d : CHIPDevice) : Prop :=
  let currentProp := hip_device_props d in
  field_met properties currentProp major
  /\ field_met properties currentProp minor
  /\ field_met properties currentProp totalGlobalMem
  /\ field_met properties currentProp sharedMemPerBlock
  /\ field_met properties currentProp maxThreadsPerBlock
  /\ field_met properties currentProp totalConstMem
  /\ field_met properties currentProp multiProcessorCount
  /\ field_met properties currentProp maxThreadsPerMultiProcessor
  /\ field_met properties currentProp memoryClockRate
  /\ field_met properties currentProp memoryBusWidth
  /\ field_met properties currentProp l2CacheSize
  /\ field_met properties currentProp regsPerBlock
  /\ field_met properties currentProp maxSharedMemoryPerMultiProcessor
  /\ field_met properties currentProp warpSize.

Global Instance meets_compared_dec properties d : Decision (meets_compared properties d).
Proof. unfold meets_compared, field_met. apply _. Defined.

(** One for a requested (non-zero) value, zero otherwise. *)
Definition requested_one (requested : Z) : Z :=
  if requested =? 0 then 0 else 1.

(** One for a requested value that the device's value meets or exceeds,
    zero otherwise. *)
Definition met_one (requested current : Z) : Z :=
  if requested =? 0 then 0 else if requested <=? current then 1 else 0.

(** The number of requested fields among the fourteen. *)
Definition requested_compared (properties : hipDeviceProp_t) : Z :=
  requested_one (major properties)
  + requested_one (minor properties)
  + requested_one (totalGlobalMem properties)
  + requested_one (sharedMemPerBlock properties)
  + requested_one (maxThreadsPerBlock properties)
  + requested_one (totalConstMem properties)
  + requested_one (multiProcessorCount properties)
  + requested_one (maxThreadsPerMultiProcessor properties)
  + requested_one (memoryClockRate properties)
  + requested_one (memoryBusWidth properties)
  + requested_one (l2CacheSize properties)
  + requested_one (regsPerBlock properties)
  + requested_one (maxSharedMemoryPerMultiProcessor properties)
  + requested_one (warpSize properties).

(** The number of requested fields among the fourteen that a device
    meets or exceeds. *)
Definition met_compared (properties : hipDeviceProp_t) (d : CHIPDevice) : Z :=
  let currentProp := hip_device_props d in
  met_one (major properties) (major currentProp)
  + met_one (minor properties) (minor currentProp)
  + met_one (totalGlobalMem properties) (totalGlobalMem currentProp)
  + met_one (sharedMemPerBlock properties) (sharedMemPerBlock currentProp)
  + met_one (maxThreadsPerBlock properties) (maxThreadsPerBlock currentProp)
  + met_one (totalConstMem properties) (totalConstMem currentProp)
  + met_one (multiProcessorCount properties) (multiProcessorCount currentProp)
  + met_one (maxThreadsPerMultiProcessor properties)
            (maxThreadsPerMultiProcessor currentProp)
  + met_one (memoryClockRate properties) (memoryClockRate currentProp)
  + met_one (memoryBusWidth properties) (memoryBusWidth currentProp)
  + met_one (l2CacheSize properties) (l2CacheSize currentProp)
  + met_one (regsPerBlock properties) (regsPerBlock currentProp)
  + met_one (maxSharedMemoryPerMultiProcessor properties)
            (maxSharedMemoryPerMultiProcessor currentProp)
  + met_one (warpSize properties) (warpSize currentProp).

(** The same two counts over an arbitrary list of fields, for the
    induction over the checks. *)
Definition requested_among (fields : list (hipDeviceProp_t -> Z))
           (properties : hipDeviceProp_t) : Z :=
  foldr (fun field n => requested_one (field properties) + n) 0 fields.

Definition met_among (fields : list (hipDeviceProp_t -> Z))
           (properties currentProp : hipDeviceProp_t) : Z :=
  foldr (fun field n => met_one (field properties) (field currentProp) + n) 0 fields.

(** A request that names only the [major] field. *)
Definition only_major (m : Z) : hipDeviceProp_t :=
  {| prop_name := ""; major := m; minor := 0; totalGlobalMem := 0;
     sharedMemPerBlock := 0; maxThreadsPerBlock := 0; totalConstMem := 0;
     multiProcessorCount := 0; maxThreadsPerMultiProcessor := 0;
     memoryClockRate := 0; memoryBusWidth := 0; l2CacheSize := 0;
     regsPerBlock := 0; maxSharedMemoryPerMultiProcessor := 0; warpSize := 0;
     maxThreadsDim := [0; 0; 0]; maxGridSize := [0; 0; 0]; clockRate := 0;
     computeMode := 0; pciBusID := 0; concurrentKernels := 0;
     pciDeviceID := 0; isMultiGpuBoard := 0; cooperativeLaunch := 0;
     cooperativeMultiDeviceLaunch := 0; integrated := 0; maxTexture1D := 0;
     maxTexture2D := [0; 0]; maxTexture3D := [0; 0; 0]; hdpMemFlushCntl := 0;
     hdpRegFlushCntl := 0; memPitch := 0; textureAlignment := 0;
     texturePitchAlignment := 0; kernelExecTimeoutEnabled := 0;
     canMapHostMemory := 0; ECCEnabled := 0;
     cooperativeMultiDeviceUnmatchedFunc := 0;
     cooperativeMultiDeviceUnmatchedGridDim := 0;
     cooperativeMultiDeviceUnmatchedBlockDim := 0;
     cooperativeMultiDeviceUnmatchedSharedMem := 0; asicRevision := 0;
     managedMemory := 0; directManagedMemAccessFromHost := 0;
     concurrentManagedAccess := 0; pageableMemoryAccess := 0;
     pageableMemoryAccessUsesHostPageTables := 0 |}.

(** Properties with the [major] and [clockRate] fields set and every
    other field zero. *)
Definition major_and_clockRate (m c : Z) : hipDeviceProp_t :=
  {| prop_name := ""; major := m; minor := 0; totalGlobalMem := 0;
     sharedMemPerBlock := 0; maxThreadsPerBlock := 0; totalConstMem := 0;
     multiProcessorCount := 0; maxThreadsPerMultiProcessor := 0;
     memoryClockRate := 0; memoryBusWidth := 0; l2CacheSize := 0;
     regsPerBlock := 0; maxSharedMemoryPerMultiProcessor := 0; warpSize := 0;
     maxThreadsDim := [0; 0; 0]; maxGridSize := [0; 0; 0]; clockRate := c;
     computeMode := 0; pciBusID := 0; concurrentKernels := 0;
     pciDeviceID := 0; isMultiGpuBoard := 0; cooperativeLaunch := 0;
     cooperativeMultiDeviceLaunch := 0; integrated := 0; maxTexture1D := 0;
     maxTexture2D := [0; 0]; maxTexture3D := [0; 0; 0]; hdpMemFlushCntl := 0;
     hdpRegFlushCntl := 0; memPitch := 0; textureAlignment := 0;
     texturePitchAlignment := 0; kernelExecTimeoutEnabled := 0;
     canMapHostMemory := 0; ECCEnabled := 0;
     cooperativeMultiDeviceUnmatchedFunc := 0;
     cooperativeMultiDeviceUnmatchedGridDim := 0;
     cooperativeMultiDeviceUnmatchedBlockDim := 0;
     cooperativeMultiDeviceUnmatchedSharedMem := 0; asicRevision := 0;
     managedMemory := 0; directManagedMemAccessFromHost := 0;
     concurrentManagedAccess := 0; pageableMemoryAccess := 0;
     pageableMemoryAccessUsesHostPageTables := 0 |}.

(** A device with the given compute capability and nothing else set. *)
Definition device_with_major (i m : Z) : CHIPDevice :=
  {| idx := i; ctx := 1; hip_device_props := only_major m;
     allocation_tracker := None |}.

(** Three backends: the better device first, no device good enough, and
    a mixed list. *)
Definition high_then_low : CHIPBackend :=
  {| chip_devices := [device_with_major 0 5; device_with_major 1 3];
     active_dev := Some 0%nat |}.

Definition too_old : CHIPBackend :=
  {| chip_devices := [device_with_major 0 2; device_with_major 1 1];
     active_dev := Some 0%nat |}.

Definition mixed : CHIPBackend :=
  {| chip_devices := [device_with_major 0 2; device_with_major 1 5;
                      device_with_major 2 3];
     active_dev := Some 0%nat |}.

(** A device with the given compute capability and clock rate, and a
    backend whose only device has compute capability 3 and the given
    clock rate. *)
Definition device_with_clockRate (i m c : Z) : CHIPDevice :=
  {| idx := i; ctx := 1; hip_device_props := major_and_clockRate m c;
     allocation_tracker := None |}.

Definition one_clock (c : Z) : CHIPBackend :=
  {| chip_devices := [device_with_clockRate 0 3 c];
     active_dev := Some 0%nat |}.

End Matching.

(** ** Host callbacks: CHIPCallbackData and CHIPEventMonitor *)

Module Callback.

Import Event.

(** The kinds of operation the scenario puts on a queue. *)
Inductive op_kind := Operation | Barrier | Marker.

(** An operation on the queue: the events it waits for before it runs
    and the event the backend returned for it.  A [CHIPEvent *] is the
    position of the event in the store [events] of the world, which
    keeps the status of every event created so far. *)
Record queued_op := {
  kind : op_kind;
  waits_for : list nat;
  op_event : nat
}.

Record CHIPCallbackData := {
  callback_f : nat;
  callback_args : Z;
  gpu_ready : nat;
  cpu_callback_complete : nat;
  gpu_ack : nat
}.

Record world := {
  events : list event_status_e;
  queue : list queued_op;
  LastEvent : option nat;
  callback_stack : list CHIPCallbackData;
  event_monitor : bool
}.

(** [Backend->createCHIPEvent(ctx)]: a new event, in state INIT. *)
Definition createCHIPEvent (w : world) : nat * world :=
  (length (events w),
   {| events := events w ++ [EVENT_STATUS_INIT]; queue := queue w;
      LastEvent := LastEvent w; callback_stack := callback_stack w;
      event_monitor := event_monitor w |}).

(** Modelled from the spec: the backend's submission routines
    ([enqueueBarrierImpl], [enqueueMarkerImpl] and the like are pure
    virtual here): each submits one operation to the queue and returns a
    new event bound to it, in state RECORDING. *)
Definition submitImpl (k : op_kind) (eventsToWaitFor : list nat) (w : world)
  : nat * world :=
  let ev := length (events w) in
  (ev,
   {| events := events w ++ [EVENT_STATUS_RECORDING];
      queue := queue w ++ [{| kind := k; waits_for := eventsToWaitFor;
                             op_event := ev |}];
      LastEvent := LastEvent w; callback_stack := callback_stack w;
      event_monitor := event_monitor w |}).

Definition updateLastEvent (ev : nat) (w : world) : world :=
  {| events := events w; queue := queue w; LastEvent := Some ev;
     callback_stack := callback_stack w; event_monitor := event_monitor w |}.

(** [eventsToWaitFor] is a pointer to a vector, or null. *)
Definition enqueueBarrier (eventsToWaitFor : option (list nat)) (w : world)
  : nat * world :=
  let '(ev, w') := submitImpl Barrier (default [] eventsToWaitFor) w in
  (ev, updateLastEvent ev w').

Definition enqueueMarker (w : world) : nat * world :=
  let '(ev, w') := submitImpl Marker [] w in
  (ev, updateLastEvent ev w').

(** An earlier operation of the queue (a copy, a fill, a launch). *)
Definition enqueueOperation (w : world) : nat * world :=
  let '(ev, w') := submitImpl Operation [] w in
  (ev, updateLastEvent ev w').

(** [CHIPCallbackData::setup].  The three members are assigned the
    created events.  The results of [enqueueBarrier(nullptr)] and of
    [enqueueMarker()] initialise local variables that the function
    declares under the names [gpu_ready] and [gpu_ack]; the members keep
    the created events. *)
Definition setup (callback_f_ : nat) (callback_args_ : Z) (w : world)
  : CHIPCallbackData * world :=
  let '(member_gpu_ready, w1) := createCHIPEvent w in
  let '(member_cpu_callback_complete, w2) := createCHIPEvent w1 in
  let '(member_gpu_ack, w3) := createCHIPEvent w2 in
  let '(local_gpu_ready, w4) := enqueueBarrier None w3 in
  let evs := [member_cpu_callback_complete] in
  let '(_, w5) := enqueueBarrier (Some evs) w4 in
  let '(local_gpu_ack, w6) := enqueueMarker w5 in
  ({| callback_f := callback_f_; callback_args := callback_args_;
      gpu_ready := member_gpu_ready;
      cpu_callback_complete := member_cpu_callback_complete;
      gpu_ack := member_gpu_ack |}, w6).

Definition addCallback (callback : nat) (userData : Z) (w : world)
  : bool * world :=
  let '(cb, w1) := setup callback userData w in
  (true,
   {| events := events w1; queue := queue w1; LastEvent := LastEvent w1;
      callback_stack := cb :: callback_stack w1;
      event_monitor := true |}).

(** What the monitor thread does, one call at a time. *)
Inductive monitor_step :=
| Wait (ev : nat)
| Execute (callback : nat)
| HostSignal (ev : nat)
| Delete.

(** The body of the loop of [CHIPEventMonitor::monitor] for one callback
    record. *)
Definition monitor_body (cb : CHIPCallbackData) : list monitor_step :=
  [ Wait (gpu_ready cb);
    Execute (callback_f cb);
    HostSignal (cpu_callback_complete cb);
    Wait (gpu_ack cb);
    Delete ].

(** The loop, over the callbacks [getCallback] hands out, newest first. *)
Definition monitor (callbacks : list CHIPCallbackData) : list monitor_step :=
  concat (map monitor_body callbacks).

(** *** The device and the monitor thread running side by side *)

Inductive observation :=
| DeviceCompleted (position : nat)
| HostCallback (callback : nat)
| Reclaimed.

Global Instance observation_eq_dec : EqDecision observation.
Proof. solve_decision. Defined.

Global Instance event_status_eq_dec : EqDecision event_status_e.
Proof. solve_decision. Defined.

Global Instance monitor_step_eq_dec : EqDecision monitor_step.
Proof. solve_decision. Defined.

(** The device has completed the first [device_pc] operations of the
    queue; [pending] is what the monitor thread has still to do. *)
Record system := {
  status : list event_status_e;
  device_pc : nat;
  pending : list monitor_step;
  observed : list observation
}.

Global Instance system_eq_dec : EqDecision system.
Proof. solve_decision. Defined.

Definition is_complete (st : list event_status_e) (ev : nat) : bool :=
  bool_decide (st !! ev = Some EVENT_STATUS_COMPLETE).

Section Semantics.

(** Modelled from the spec: [wait] returns once the event is COMPLETE
    and blocks while it is RECORDING; on an event still in state INIT
    its behaviour is left undefined, so it is a parameter here: it
    returns at once, or it blocks.  [hostSignal] completes an event.
    The device runs the operations of a queue in order, each after the
    events it waits for are complete, and completes the operation's
    event. *)
Variable wait_returns_on_init : bool.

Definition wait_returns (st : list event_status_e) (ev : nat) : bool :=
  match st !! ev with
  | Some EVENT_STATUS_COMPLETE => true
  | Some EVENT_STATUS_INIT => wait_returns_on_init
  | _ => false
  end.

Definition device_next (q : list queued_op) (s : system) : list system :=
  match q !! device_pc s with
  | Some o =>
      if forallb (is_complete (status s)) (waits_for o) then
        [ {| status := <[op_event o := EVENT_STATUS_COMPLETE]> (status s);
             device_pc := S (device_pc s);
             pending := pending s;
             observed := observed s ++ [DeviceCompleted (device_pc s)] |} ]
      else []
  | None => []
  end.

Definition monitor_next (s : system) : list system :=
  match pending s with
  | [] => []
  | Wait ev :: rest =>
      if wait_returns (status s) ev then
        [ {| status := status s; device_pc := device_pc s; pending := rest;
             observed := observed s |} ]
      else []
  | Execute f :: rest =>
      [ {| status := status s; device_pc := device_pc s; pending := rest;
           observed := observed s ++ [HostCallback f] |} ]
  | HostSignal ev :: rest =>
      [ {| status := <[ev := EVENT_STATUS_COMPLETE]> (status s);
           device_pc := device_pc s; pending := rest;
           observed := observed s |} ]
  | Delete :: rest =>
      [ {| status := status s; device_pc := device_pc s; pending := rest;
           observed := observed s ++ [Reclaimed] |} ]
  end.

Definition next (q : list queued_op) (s : system) : list system :=
  device_next q s ++ monitor_next s.

Inductive reachable (q : list queued_op) (s0 : system) : system -> Prop :=
| reachable_start : reachable q s0 s0
| reachable_step s s' :
    reachable q s0 s -> s' ∈ next q s -> reachable q s0 s'.

End Semantics.

(** The system right after the calls that built [w]: nothing has run on
    the device yet and the monitor has its whole loop ahead. *)
Definition start (w : world) : system :=
  {| status := events w; device_pc := 0;
     pending := monitor (callback_stack w); observed := [] |}.

Definition empty_world : world :=
  {| events := []; queue := []; LastEvent := None; callback_stack := [];
     event_monitor := false |}.

(** The scenario: one operation enqueued, then one callback added. *)
Definition scenario (callback : nat) : world :=
  snd (addCallback callback 0 (snd (enqueueOperation empty_world))).

(** The callback record of the scenario. *)
Definition scenario_record (callback : nat) : option CHIPCallbackData :=
  head (callback_stack (scenario callback)).

(** Modelled from the spec: the handshake as the specification describes
    it, for comparison with [setup]: [gpu_ready] is the event of the
    barrier that marks the callback's point in the stream and [gpu_ack]
    the event of the closing marker. *)
Definition described_setup (callback_f_ : nat) (callback_args_ : Z) (w : world)
  : CHIPCallbackData * world :=
  let '(cpu_callback_complete_, w1) := createCHIPEvent w in
  let '(gpu_ready_, w2) := enqueueBarrier None w1 in
  let '(_, w3) := enqueueBarrier (Some [cpu_callback_complete_]) w2 in
  let '(gpu_ack_, w4) := enqueueMarker w3 in
  ({| callback_f := callback_f_; callback_args := callback_args_;
      gpu_ready := gpu_ready_;
      cpu_callback_complete := cpu_callback_complete_;
      gpu_ack := gpu_ack_ |}, w4).

Definition described_scenario (callback : nat) : world :=
  let '(cb, w) := described_setup callback 0 (snd (enqueueOperation empty_world)) in
  {| events := events w; queue := queue w; LastEvent := LastEvent w;
     callback_stack := [cb]; event_monitor := true |}.

(** The states met within [fuel] steps of the states of [frontier]. *)
Fixpoint explore (wait_returns_on_init : bool) (q : list queued_op)
         (fuel : nat) (frontier : list system) : list system :=
  match fuel with
  | O => []
  | S fuel' =>
      frontier
      ++ explore wait_returns_on_init q fuel'
           (frontier ≫= next wait_returns_on_init q)
  end.

(** The order the specification describes for the scenario: the earlier
    operation and the barrier at the callback's point complete, the host
    callback runs, the device goes on, the record is reclaimed. *)
Definition described_order (callback : nat) : list observation :=
  [ DeviceCompleted 0; DeviceCompleted 1; HostCallback callback;
    DeviceCompleted 2; DeviceCompleted 3; Reclaimed ].

End Callback.

(** ** More of the context: pointer lookup and reset *)

Module ContextMore.

Import Tracker Device Context.

(** [findPointerInfo]: the out-parameters [pbase] and [psize] are
    returned with the status.  As in [free], the test [if (!info)] never
    fires. *)
Definition findPointerInfo (dptr : Z) (B : CHIPBackend)
  : result (hipError_t * Z * Z) :=
  chip_dev <- getActiveDevice B ;;
  d <- deref B chip_dev ;;
  t <- non_null (allocation_tracker d) ;;
  info <- getByDevPtr dptr t ;;
  Ok (hipSuccess, base_ptr info, size info).

(** A context: its devices (pointers into the backend's store), the
    pointers it has handed out, and its flags. *)
Record CHIPContext := {
  chip_devices : list nat;
  allocated_ptrs : list Z;
  flags : Z
}.

Definition getFlags (c : CHIPContext) : Z := flags c.

Definition setFlags (flags_ : Z) (c : CHIPContext) : CHIPContext :=
  {| chip_devices := chip_devices c; allocated_ptrs := allocated_ptrs c;
     flags := flags_ |}.

(** The tracker of the device at position [p], when there is one. *)
Definition tracker_at (B : CHIPBackend) (p : nat) : option CHIPAllocationTracker :=
  d ← Device.chip_devices B !! p; allocation_tracker d.

(** Second loop of [reset]: on each device, release as many bytes as
    the tracker has in use. *)
Fixpoint release_reservations (devs : list nat) (B : CHIPBackend)
  : result CHIPBackend :=
  match devs with
  | [] => Ok B
  | dev :: rest =>
      d <- deref B dev ;;
      t <- non_null (allocation_tracker d) ;;
      let t' := snd (releaseMemReservation (total_mem_used t) t) in
      release_reservations rest (store B dev (with_tracker d t'))
  end.

Section Native.

Context {driver : Type}.
Variable free_ : Z -> driver -> driver.

(** First loop of [reset]: every allocation goes to the native [free_]. *)
Definition free_all (ptrs : list Z) (drv : driver) : driver :=
  foldl (fun drv' ptr => free_ ptr drv') drv ptrs.

Definition reset (c : CHIPContext) (B : CHIPBackend) (drv : driver)
  : result (CHIPContext * CHIPBackend * driver) :=
  let drv' := free_all (allocated_ptrs c) drv in
  B' <- release_reservations (chip_devices c) B ;;
  Ok ({| chip_devices := chip_devices c; allocated_ptrs := []; flags := flags c |},
      B', drv').

End Native.

(** A backend with two devices of 100 bytes, 30 and 50 of them in use. *)
Definition two_devices : CHIPBackend :=
  {| Device.chip_devices :=
       [ {| idx := 0; ctx := 1; hip_device_props := zero_props;
            allocation_tracker := Some (with_used (create 100 "gpu0") 30 30) |};
         {| idx := 1; ctx := 1; hip_device_props := zero_props;
            allocation_tracker := Some (with_used (create 100 "gpu1") 50 60) |} ];
     active_dev := Some 0%nat |}.

Definition both_devices : CHIPContext :=
  {| chip_devices := [0%nat; 1%nat]; allocated_ptrs := [4096; 8192]; flags := 0 |}.

End ContextMore.

(** ** Kernels and variables of a module, by name *)

Module ModuleSymbols.

Import DeviceVars.

Definition addKernel (kernel : CHIPKernel) (m : CHIPModule) : CHIPModule :=
  {| chip_kernels := chip_kernels m ++ [kernel]; chip_vars := chip_vars m;
     DeviceVariablesAllocated := DeviceVariablesAllocated m;
     DeviceVariablesInitialized := DeviceVariablesInitialized m |}.

Definition getKernels (m : CHIPModule) : list CHIPKernel := chip_kernels m.

(** [getKernel(std::string)], as used by the shadow-kernel helpers. *)
Definition getKernel (name : string) (m : CHIPModule) : result CHIPKernel :=
  DeviceVars.getKernel name m.

Definition getGlobalVar (var_name_ : string) (m : CHIPModule) : result CHIPDeviceVar :=
  match List.find (fun v => String.eqb (Name v) var_name_) (chip_vars m) with
  | Some v => Ok v
  | None => CHIPERR_LOG_AND_THROW hipErrorLaunchFailure
  end.

End ModuleSymbols.

(** ** Queue lists of a device, a context and the backend *)

Module Queues.

(** [vec.erase(std::find(vec.begin(), vec.end(), x))] for an [x] that is
    in the vector: the first occurrence goes. *)
Fixpoint erase_first (x : Z) (l : list Z) : list Z :=
  match l with
  | [] => []
  | y :: rest => if y =? x then rest else y :: erase_first x rest
  end.

(** [CHIPDevice::addQueue], the overload that takes a queue pointer. *)
Definition Device_addQueue (chip_queue_ : Z) (chip_queues : list Z) : list Z :=
  if bool_decide (chip_queue_ ∈ chip_queues) then chip_queues
  else chip_queues ++ [chip_queue_].

(** [CHIPDevice::removeQueue]. *)
Definition Device_removeQueue (q : Z) (chip_queues : list Z)
  : result (bool * list Z) :=
  if bool_decide (q ∈ chip_queues) then Ok (true, erase_first q chip_queues)
  else CHIPERR_LOG_AND_THROW hipErrorUnknown.

(** [CHIPDevice::getActiveQueue]: [chip_queues[0]], with no check. *)
Definition Device_getActiveQueue (chip_queues : list Z) : result Z :=
  non_null (head chip_queues).

(** [CHIPContext::getQueues]. *)
Definition Context_getQueues (chip_queues : list Z) : result (list Z) :=
  match chip_queues with
  | [] => CHIPERR_LOG_AND_THROW hipErrorUnknown
  | _ => Ok chip_queues
  end.

(** [CHIPContext::addQueue]. *)
Definition Context_addQueue (q : Z) (chip_queues : list Z) : list Z :=
  chip_queues ++ [q].

(** [CHIPBackend::getActiveQueue]; [active_q] is 0 when null. *)
Definition Backend_getActiveQueue (active_q : Z) : result Z :=
  if active_q =? 0 then CHIPERR_LOG_AND_THROW hipErrorUnknown else Ok active_q.

(** [CHIPContext::findQueue]; the result 0 is the null pointer. *)
Definition Context_findQueue (stream : Z) (chip_queues : list Z) (active_q : Z)
  : result Z :=
  Queues_ <- Context_getQueues chip_queues ;;
  if stream =? 0 then Backend_getActiveQueue active_q
  else if bool_decide (stream ∈ Queues_) then Ok stream
  else Ok 0.

(** [CHIPBackend::findQueue], given the queues of the active device. *)
Definition Backend_findQueue (q : Z) (device_queues : list Z) (active_q : Z)
  : result Z :=
  if q =? 0 then Backend_getActiveQueue active_q
  else if bool_decide (q ∈ device_queues) then Ok q
  else CHIPERR_LOG_AND_THROW hipErrorTbd.

(** [CHIPBackend::registerModuleStr] and [unregisterModuleStr], on the
    vector [modules_str] of module pointers. *)
Definition registerModuleStr (mod_str : Z) (modules_str : list Z) : list Z :=
  modules_str ++ [mod_str].

Definition unregisterModuleStr (mod_str : Z) (modules_str : list Z) : list Z :=
  if bool_decide (mod_str ∈ modules_str) then erase_first mod_str modules_str
  else modules_str.

End Queues.

(** ** The event pools of a Level Zero context *)

Module EventPool.

Section Pools.

(** The events themselves and the two pool operations that are only
    declared in the header, [LZEventPool::getEvent] and the pool's
    constructor, are parameters. *)
Context {Event : Type}.

Record LZEventPool := {
  Size_ : Z;
  Events_ : list Event
}.

Variable getEvent : LZEventPool -> Event * LZEventPool.
Variable new_pool : Z -> LZEventPool.

Definition EventAvailable (p : LZEventPool) : bool :=
  Z.of_nat (length (Events_ p)) >? 0.

Record CHIPContextLevel0 := {
  EventPools_ : list LZEventPool;
  EventsRequested_ : Z;
  EventsReused_ : Z;
  EventPoolSize_ : Z
}.

(** A context as constructed: no pool, the counters at zero and the
    next pool size at one. *)
Definition fresh_context : CHIPContextLevel0 :=
  {| EventPools_ := []; EventsRequested_ := 0; EventsReused_ := 0;
     EventPoolSize_ := 1 |}.

(** The scan of the pools: the first pool with an event available gives
    one, and is updated in place. *)
Fixpoint scan_pools (pools : list LZEventPool)
  : option (Event * list LZEventPool) :=
  match pools with
  | [] => None
  | EventPool :: rest =>
      if EventAvailable EventPool then
        let '(ev, EventPool') := getEvent EventPool in
        Some (ev, EventPool' :: rest)
      else
        match scan_pools rest with
        | Some (ev, rest') => Some (ev, EventPool :: rest')
        | None => None
        end
  end.

(** The pool's constructor takes an [unsigned int]. *)
Definition to_unsigned_int (z : Z) : Z := z mod 2 ^ 32.

Definition getEventFromPool (c : CHIPContextLevel0) : Event * CHIPContextLevel0 :=
  let requested := wrap64 (EventsRequested_ c + 1) in
  match scan_pools (EventPools_ c) with
  | Some (ev, pools') =>
      (ev, {| EventPools_ := pools'; EventsRequested_ := requested;
              EventsReused_ := wrap64 (EventsReused_ c + 1);
              EventPoolSize_ := EventPoolSize_ c |})
  | None =>
      let NewEventPool := new_pool (to_unsigned_int (EventPoolSize_ c)) in
      let '(ev, NewEventPool') := getEvent NewEventPool in
      (ev, {| EventPools_ := EventPools_ c ++ [NewEventPool'];
              EventsRequested_ := requested;
              EventsReused_ := EventsReused_ c;
              EventPoolSize_ := wrap64 (EventPoolSize_ c * 2) |})
  end.

(** The context after [n] requests. *)
Fixpoint after_requests (n : nat) (c : CHIPContextLevel0) : CHIPContextLevel0 :=
  match n with
  | O => c
  | S n' => snd (getEventFromPool (after_requests n' c))
  end.

End Pools.

Arguments LZEventPool Event : clear implicits.
Arguments CHIPContextLevel0 Event : clear implicits.

(** Pools of numbered events: a pool of size [n] starts with the events
    [n-1 .. 0] on its stack and [getEvent] pops the top. *)
Definition counting_pool (size : Z) : LZEventPool nat :=
  {| Size_ := size; Events_ := seq 0 (Z.to_nat size) |}.

Definition pop_event (p : LZEventPool nat) : nat * LZEventPool nat :=
  match Events_ p with
  | [] => (0%nat, p)
  | ev :: rest => (ev, {| Size_ := Size_ p; Events_ := rest |})
  end.

End EventPool.

(** ** What the life cycle submits and leaves behind *)

Module LifecycleTrace.

Import DeviceVars.

(** The info kernels of the first loop of the allocation: the [I]-th
    variable's kernel gets the address of slot [I] of the device buffer. *)
Fixpoint info_launches (prefix : string) (sizeof VarInfoBufD I : Z)
         (vars : list CHIPDeviceVar) : list queue_op :=
  match vars with
  | [] => []
  | Var :: rest =>
      Launch (prefix ++ Name Var) [wrap64 (VarInfoBufD + I * sizeof)]
      :: info_launches prefix sizeof VarInfoBufD (I + 1) rest
  end.

(** The bind kernels: one per variable, with the variable's address. *)
Definition bind_launches (prefix : string) (vars : list CHIPDeviceVar)
  : list queue_op :=
  map (fun Var => Launch (prefix ++ Name Var) [DevAddr Var]) vars.

(** The init kernels: one per variable that has an initialiser. *)
Definition init_launches (prefix : string) (vars : list CHIPDeviceVar)
  : list queue_op :=
  map (fun Var => Launch (prefix ++ Name Var) []) (List.filter HasInitializer vars).

(** A variable after its storage was allocated, against what its info
    kernel reported: name and size as registered, the reported size
    equal to the registered one, a non-null address, and the
    initialiser flag as reported. *)
Definition allocated_as (var_info : string -> Z * Z * Z)
           (Var Var' : CHIPDeviceVar) : Prop :=
  Name Var' = Name Var
  /\ Size Var' = Size Var
  /\ fst (fst (var_info (Name Var))) = Size Var
  /\ DevAddr Var' <> 0
  /\ HasInitializer Var' = negb (snd (var_info (Name Var)) =? 0).

(** A module with two variables, [x] of 4 bytes with an initialiser and
    [y] of 8 bytes without, and the shadow kernels of both. *)
Definition two_var_module : CHIPModule :=
  {| chip_kernels := [ {| host_f_name := "__chip_var_info_x" |};
                       {| host_f_name := "__chip_var_bind_x" |};
                       {| host_f_name := "__chip_var_init_x" |};
                       {| host_f_name := "__chip_var_info_y" |};
                       {| host_f_name := "__chip_var_bind_y" |};
                       {| host_f_name := "__chip_var_init_y" |} ];
     chip_vars := [ {| Name := "x"; Size := 4; DevAddr := 0;
                       HasInitializer := false |};
                    {| Name := "y"; Size := 8; DevAddr := 0;
                       HasInitializer := false |} ];
     DeviceVariablesAllocated := false; DeviceVariablesInitialized := false |}.

Definition two_var_info (name : string) : Z * Z * Z :=
  if String.eqb name "x" then (4, 4, 1) else (8, 8, 0).

Definition run_allocate :=
  allocateDeviceVariablesNoLock Context.bump_allocate_
    "__chip_var_info_" "__chip_var_bind_" 24 two_var_info 65536.

Definition run_initialize :=
  initializeDeviceVariablesNoLock Context.bump_allocate_
    "__chip_var_info_" "__chip_var_bind_" "__chip_var_init_" 24
    two_var_info 65536.

Definition run_deallocate :=
  deallocateDeviceVariablesNoLock (driver := Z * list Z) Context.log_free_.

End LifecycleTrace.

(** * Properties *)

Lemma wrap64_small z : is_size_t z -> wrap64 z = z.
Proof. intros H. unfold wrap64. apply Z.mod_small. exact H. Qed.

Lemma size_max_pos : 0 < size_max.
Proof. unfold size_max. lia. Qed.

(** ** The allocation tracker *)

Module TrackerProps.

Import Tracker.

Lemma create_well_formed cap nm : is_size_t cap -> well_formed (create cap nm).
Proof. intros H. unfold well_formed, within_capacity, is_size_t in *. simpl. lia. Qed.

(** A reservation either throws, leaving nothing changed for the caller,
    or adds exactly [bytes] to the counter. *)
Lemma reserveMem_cases bytes t :
  well_formed t -> is_size_t bytes ->
  (global_mem_size t - total_mem_used t < bytes
   /\ reserveMem bytes t = Throw hipErrorMemoryAllocation)
  \/ (bytes <= global_mem_size t - total_mem_used t
      /\ exists t', reserveMem bytes t = Ok (true, t')
                    /\ total_mem_used t' = total_mem_used t + bytes
                    /\ global_mem_size t' = global_mem_size t
                    /\ dev_to_allocation_info t' = dev_to_allocation_info t).
Proof.
  intros [Hcap [Hlo Hhi]] Hb. unfold reserveMem.
  rewrite (wrap64_small (global_mem_size t - total_mem_used t))
    by (unfold is_size_t in *; lia).
  destruct (Z.leb_spec bytes (global_mem_size t - total_mem_used t)) as [Hle|Hgt].
  - right. split; [exact Hle|]. eexists. split; [reflexivity|]. simpl.
    rewrite wrap64_small by (unfold is_size_t in *; lia). auto.
  - left. split; [exact Hgt|reflexivity].
Qed.

Lemma releaseMemReservation_cases bytes t :
  is_size_t (total_mem_used t) -> is_size_t bytes ->
  (bytes <= total_mem_used t
   /\ fst (releaseMemReservation bytes t) = true
   /\ total_mem_used (snd (releaseMemReservation bytes t)) = total_mem_used t - bytes
   /\ global_mem_size (snd (releaseMemReservation bytes t)) = global_mem_size t
   /\ dev_to_allocation_info (snd (releaseMemReservation bytes t))
      = dev_to_allocation_info t)
  \/ (total_mem_used t < bytes /\ releaseMemReservation bytes t = (false, t)).
Proof.
  intros Hu Hb. unfold releaseMemReservation.
  destruct (Z.geb_spec (total_mem_used t) bytes) as [Hge|Hlt].
  - left. simpl. rewrite wrap64_small by (unfold is_size_t in *; lia).
    repeat split; lia.
  - right. split; [lia|reflexivity].
Qed.

Lemma well_formed_used t : well_formed t -> is_size_t (total_mem_used t).
Proof. unfold well_formed, within_capacity, is_size_t. lia. Qed.

Lemma after_call_well_formed t c :
  well_formed t -> is_size_t (call_arg c) ->
  well_formed (after_call t c) /\ global_mem_size (after_call t c) = global_mem_size t.
Proof.
  intros Hwf Hb. destruct c as [bytes|bytes]; simpl in *.
  - destruct (reserveMem_cases bytes t Hwf Hb) as [[_ ->]|[Hle (t' & -> & Hu & Hc & _)]].
    + auto.
    + split; [|exact Hc]. destruct Hwf as [Hcap Hin].
      unfold well_formed, within_capacity in *. rewrite Hu, Hc.
      unfold is_size_t in *. lia.
  - destruct (releaseMemReservation_cases bytes t (well_formed_used t Hwf) Hb)
      as [(Hle & _ & Hu & Hc & _)|[_ ->]].
    + split; [|exact Hc]. destruct Hwf as [Hcap Hin].
      unfold well_formed, within_capacity in *. rewrite Hu, Hc.
      unfold is_size_t in *. lia.
    + auto.
Qed.

Lemma states_after_well_formed cs : forall t,
  well_formed t -> Forall (fun c => is_size_t (call_arg c)) cs ->
  Forall (fun t' => well_formed t' /\ global_mem_size t' = global_mem_size t)
         (states_after t cs).
Proof.
  induction cs as [|c cs IH]; intros t Hwf Hcs; simpl.
  - constructor.
  - inversion Hcs as [|? ? Hc Hrest]; subst.
    destruct (after_call_well_formed t c Hwf Hc) as [Hwf' Hcap].
    constructor; [auto|].
    eapply Forall_impl; [apply IH; assumption|].
    simpl. intros t' [? ?]. split; [assumption|congruence].
Qed.

(** C1: whatever the sequence of [reserveMem] and
    [releaseMemReservation] calls on a tracker created with capacity
    [cap], after every call the counter [total_mem_used] lies between
    zero and the capacity. *)
Theorem used_within_capacity (cap : Z) (nm : string) (cs : list call) :
  is_size_t cap ->
  Forall (fun c => is_size_t (call_arg c)) cs ->
  Forall (fun t => 0 <= total_mem_used t <= cap /\ global_mem_size t = cap)
         (states_after (create cap nm) cs).
Proof.
  intros Hcap Hcs.
  eapply Forall_impl;
    [apply states_after_well_formed; [apply create_well_formed; exact Hcap|exact Hcs]|].
  simpl. intros t [[_ Hin] Hc]. unfold within_capacity in Hin. simpl in Hc.
  rewrite Hc in Hin. auto.
Qed.

Lemma used_within_capacity_witness :
  Forall (fun t => 0 <= total_mem_used t <= 100 /\ global_mem_size t = 100)
         (states_after (create 100 "gpu") sample_calls).
Proof.
  apply (used_within_capacity 100 "gpu" sample_calls).
  - unfold is_size_t, size_max. lia.
  - unfold sample_calls.
    repeat constructor; simpl; unfold size_max; lia.
Defined.

(** The counter along that run: 60, 60 (the second reservation
    throws), 60 (the over-release is refused), 40, 80, 81. *)
Example sample_calls_used :
  map total_mem_used (states_after (create 100 "gpu") sample_calls)
  = [60; 60; 60; 40; 80; 81].
Proof. reflexivity. Qed.

(** C4, as stated, fails: with 5 bytes outstanding a release of 10 is
    refused and the counter stays at 5; it is not brought down to zero. *)
Lemma release_over_not_clamped :
  let t := with_used (create 10 "gpu") 5 5 in
  total_mem_used (snd (releaseMemReservation 10 t))
  <> Z.max 0 (total_mem_used t - 10).
Proof. simpl. discriminate. Qed.

(** C4, amended: [releaseMemReservation bytes] returns [false] exactly
    when [bytes] exceeds the outstanding [total_mem_used], and [true]
    otherwise; when it returns [true] the counter has gone down by
    [bytes], and when it returns [false] the tracker is unchanged. *)
Theorem releaseMemReservation_spec (bytes : Z) (t : CHIPAllocationTracker) :
  is_size_t (total_mem_used t) -> is_size_t bytes ->
  (fst (releaseMemReservation bytes t) = false <-> total_mem_used t < bytes)
  /\ (fst (releaseMemReservation bytes t) = true ->
      total_mem_used (snd (releaseMemReservation bytes t)) = total_mem_used t - bytes)
  /\ (fst (releaseMemReservation bytes t) = false ->
      snd (releaseMemReservation bytes t) = t).
Proof.
  intros Hu Hb.
  destruct (releaseMemReservation_cases bytes t Hu Hb)
    as [(Hle & Hr & Hused & _)|[Hlt Heq]].
  - rewrite Hr. split; [split; [discriminate|lia]|].
    split; [auto|discriminate].
  - rewrite Heq. simpl. split; [split; auto|].
    split; [discriminate|auto].
Qed.

Lemma releaseMemReservation_spec_witness :
  let t := with_used (create 10 "gpu") 5 5 in
  (fst (releaseMemReservation 3 t) = false <-> total_mem_used t < 3)
  /\ (fst (releaseMemReservation 3 t) = true ->
      total_mem_used (snd (releaseMemReservation 3 t)) = total_mem_used t - 3)
  /\ (fst (releaseMemReservation 3 t) = false ->
      snd (releaseMemReservation 3 t) = t).
Proof.
  apply (releaseMemReservation_spec 3 (with_used (create 10 "gpu") 5 5));
    unfold is_size_t, size_max; simpl; lia.
Defined.

End TrackerProps.

(** ** The context's allocate and free *)

Module ContextProps.

Import Tracker Device Context TrackerProps.

Lemma active_tracker_store B p d t :
  active_dev B = Some p -> chip_devices B !! p = Some d ->
  active_tracker (store B p (with_tracker d t)) = Some t.
Proof.
  intros Ha Hd. unfold active_tracker, store. simpl. rewrite Ha. simpl.
  rewrite list_lookup_insert_eq by (eapply lookup_lt_Some; exact Hd).
  reflexivity.
Qed.

Section Native.

Context {driver : Type}.
Variable allocate_ : Z -> Z -> CHIPMemoryType -> driver -> Z * driver.
Variable free_ : Z -> driver -> driver.

(** [allocate] up to the reservation, for an active device of this
    context that has its tracker. *)
Lemma allocate_unfold this size alignment mem_type B drv p d t :
  active_dev B = Some p -> chip_devices B !! p = Some d ->
  ctx d = this -> allocation_tracker d = Some t ->
  allocate allocate_ this size alignment mem_type B drv =
  (r <- reserveMem size t ;;
   let '(reserved, t1) := r in
   if negb reserved then
     Ok (nullptr, store B p (with_tracker d t1), drv)
   else
     let '(allocated_ptr, drv') := allocate_ size alignment mem_type drv in
     let t2 :=
       if allocated_ptr =? nullptr
       then snd (releaseMemReservation size t1)
       else t1 in
     let t3 := recordAllocation allocated_ptr size t2 in
     Ok (allocated_ptr, store B p (with_tracker d t3), drv')).
Proof.
  intros Ha Hd Hc Ht. unfold allocate, getActiveDevice, deref.
  rewrite Ha. simpl. rewrite Hd. simpl.
  rewrite <- Hc, Z.eqb_refl. simpl. rewrite Ht. reflexivity.
Qed.

(** C5: when [allocate] has reserved [size] bytes and the native
    allocator returns null, [allocate] returns null with the counter
    [total_mem_used] back at its value from before the reservation. *)
Theorem allocate_rolls_back this size alignment mem_type B drv p d t :
  active_dev B = Some p -> chip_devices B !! p = Some d ->
  ctx d = this -> allocation_tracker d = Some t ->
  well_formed t -> is_size_t size ->
  size <= global_mem_size t - total_mem_used t ->
  fst (allocate_ size alignment mem_type drv) = nullptr ->
  exists B' drv',
    allocate allocate_ this size alignment mem_type B drv = Ok (nullptr, B', drv')
    /\ total_mem_used <$> active_tracker B' = Some (total_mem_used t).
Proof.
  intros Ha Hd Hc Ht Hwf Hs Hfit Hnull.
  rewrite (allocate_unfold _ _ _ _ _ _ _ _ _ Ha Hd Hc Ht).
  destruct (reserveMem_cases size t Hwf Hs)
    as [[Hgt _]|[_ (t1 & -> & Hu1 & Hc1 & _)]]; [lia|].
  simpl. destruct (allocate_ size alignment mem_type drv) as [ptr drv'].
  simpl in Hnull. subst ptr. simpl.
  eexists _, _. split; [reflexivity|].
  rewrite (active_tracker_store _ _ _ _ Ha Hd). simpl. f_equal.
  assert (Hu1s : is_size_t (total_mem_used t1)).
  { destruct Hwf as [Hcap Hin]. unfold within_capacity, is_size_t in *. lia. }
  destruct (releaseMemReservation_cases size t1 Hu1s Hs)
    as [(_ & _ & Hu2 & _)|[Hlt _]].
  - rewrite Hu2, Hu1. lia.
  - destruct Hwf as [_ Hin]. unfold within_capacity, is_size_t in *. lia.
Qed.

(** [free] for a pointer the tracker has a record of. *)
Lemma free_unfold ptr B drv p d t info :
  active_dev B = Some p -> chip_devices B !! p = Some d ->
  allocation_tracker d = Some t ->
  dev_to_allocation_info t !! ptr = Some info ->
  free free_ ptr B drv =
  Ok (hipSuccess,
      store B p (with_tracker d (snd (releaseMemReservation (size info) t))),
      free_ ptr drv).
Proof.
  intros Ha Hd Ht Hi. unfold free, getActiveDevice, deref, getByDevPtr.
  rewrite Ha. simpl. rewrite Hd. simpl. rewrite Ht. simpl. rewrite Hi.
  reflexivity.
Qed.


(** C10: [reserveMem] never returns [false]: a request beyond the
    remaining capacity throws [hipErrorMemoryAllocation].  So
    [allocate] throws that error when the reservation fails, its
    branch for a [false] reservation is never taken, and a pointer
    that [allocate] returns, null or not, is the native allocator's
    result, reached only after a successful reservation. *)
Theorem reserveMem_throws_never_false this size alignment mem_type B drv p d t :
  active_dev B = Some p -> chip_devices B !! p = Some d ->
  ctx d = this -> allocation_tracker d = Some t ->
  (forall t', reserveMem size t <> Ok (false, t'))
  /\ (wrap64 (global_mem_size t - total_mem_used t) < size ->
      reserveMem size t = Throw hipErrorMemoryAllocation
      /\ allocate allocate_ this size alignment mem_type B drv
         = Throw hipErrorMemoryAllocation)
  /\ (forall ptr B' drv',
        allocate allocate_ this size alignment mem_type B drv = Ok (ptr, B', drv') ->
        (exists t1, reserveMem size t = Ok (true, t1))
        /\ allocate_ size alignment mem_type drv = (ptr, drv')).
Proof.
  intros Ha Hd Hc Ht.
  rewrite (allocate_unfold _ _ _ _ _ _ _ _ _ Ha Hd Hc Ht).
  unfold reserveMem, CHIPERR_LOG_AND_THROW.
  destruct (Z.leb_spec size (wrap64 (global_mem_size t - total_mem_used t)))
    as [Hle|Hgt]; simpl.
  - split; [intros t' H; discriminate|]. split; [lia|].
    intros ptr B' drv'.
    destruct (allocate_ size alignment mem_type drv) as [q drv1].
    intros H. inversion H; subst. split; [eauto|reflexivity].
  - split; [discriminate|]. split; [auto|]. discriminate.
Qed.

End Native.

(** [reserveMem] has two outcomes whatever the tracker and the request:
    it returns [true] or it throws. *)
Lemma reserveMem_true_or_throws bytes t :
  (exists t', reserveMem bytes t = Ok (true, t'))
  \/ reserveMem bytes t = Throw hipErrorMemoryAllocation.
Proof.
  unfold reserveMem.
  destruct (bytes <=? wrap64 (global_mem_size t - total_mem_used t)); eauto.
Qed.

Lemma one_device_well_formed used :
  0 <= used <= 100 -> well_formed (with_used (create 100 "gpu") used used).
Proof.
  intros H. unfold well_formed, within_capacity, is_size_t, size_max. simpl. lia.
Qed.

Lemma allocate_rolls_back_witness :
  exists B' drv',
    allocate failing_allocate_ 1 30 8 Shared (one_device 20) (4096, [])
    = Ok (nullptr, B', drv')
    /\ total_mem_used <$> active_tracker B' = Some 20.
Proof.
  apply (allocate_rolls_back failing_allocate_ 1 30 8 Shared (one_device 20)
           (4096, []) 0%nat _ _ eq_refl eq_refl eq_refl eq_refl).
  - apply one_device_well_formed. lia.
  - unfold is_size_t, size_max. lia.
  - simpl. lia.
  - reflexivity.
Defined.

Lemma reserveMem_throws_never_false_witness :
  (forall t', reserveMem 90 (with_used (create 100 "gpu") 20 20) <> Ok (false, t'))
  /\ (wrap64 (100 - 20) < 90 ->
      reserveMem 90 (with_used (create 100 "gpu") 20 20)
      = Throw hipErrorMemoryAllocation
      /\ allocate bump_allocate_ 1 90 8 Shared (one_device 20) (4096, [])
         = Throw hipErrorMemoryAllocation)
  /\ (forall ptr B' drv',
        allocate bump_allocate_ 1 90 8 Shared (one_device 20) (4096, [])
        = Ok (ptr, B', drv') ->
        (exists t1, reserveMem 90 (with_used (create 100 "gpu") 20 20) = Ok (true, t1))
        /\ bump_allocate_ 90 8 Shared (4096, []) = (ptr, drv')).
Proof.
  apply (reserveMem_throws_never_false bump_allocate_ 1 90 8 Shared (one_device 20)
           (4096, []) 0%nat _ _ eq_refl eq_refl eq_refl eq_refl).
Defined.

(** The request of the witness does exceed what is left, and is refused
    with the out-of-memory error. *)
Example allocate_out_of_memory :
  wrap64 (100 - 20) < 90
  /\ allocate bump_allocate_ 1 90 8 Shared (one_device 20) (4096, [])
     = Throw hipErrorMemoryAllocation.
Proof. split; reflexivity. Qed.



End ContextProps.

(** ** Events *)

Module EventProps.

Import Event.


Section Actions.

Context {W : Type}.
Variable takeOver : CHIPEvent W -> CHIPEvent W -> CHIPEvent W.

Lemma run_actions_app (l1 l2 : list (ActionFn W)) (w : W) :
  run_actions (l1 ++ l2) w = run_actions l2 (run_actions l1 w).
Proof. unfold run_actions. apply foldl_app. Qed.


(** Attaching an action puts it after the ones already attached. *)
Lemma doActions_addAction (e : CHIPEvent W) (a : ActionFn W) (w : W) :
  isFinished e = true ->
  snd <$> (match doActions (addAction a e) w with
           | Ok r => Some r | _ => None end)
  = Some (a (run_actions (Actions_ e) w)).
Proof.
  intros Hf. unfold doActions, addAction, isFinished in *. simpl.
  rewrite Hf. simpl. rewrite run_actions_app. reflexivity.
Qed.

End Actions.


(** Two actions attached to a completed event run once each, in order;
    a second [doActions] adds nothing to the log. *)
Example doActions_twice :
  let e := addAction (log_action 2) (addAction (log_action 1) (completed_event 7)) in
  exists e1 e2,
    doActions e [] = Ok (e1, [1; 2]%nat) /\ doActions e1 [1; 2]%nat = Ok (e2, [1; 2]%nat).
Proof. eexists _, _. split; reflexivity. Qed.

End EventProps.

(** ** The argument buffer of an exec item *)

Module ExecItemProps.

Import ExecItem.

Lemma length_resize n (v : list uint8_t) : length (resize n v) = n.
Proof.
  unfold resize. rewrite length_app, length_take, length_replicate. lia.
Qed.

Lemma resize_lookup_lt n (v : list uint8_t) i :
  (length v <= n)%nat -> (i < length v)%nat -> resize n v !! i = v !! i.
Proof.
  intros Hn Hi. unfold resize. rewrite take_ge by exact Hn.
  apply lookup_app_l. exact Hi.
Qed.

Lemma memcpy_lookup (dst src : list uint8_t) off sz i :
  (off + sz <= length dst)%nat -> length src = sz ->
  memcpy dst off src sz !! i
  = if decide (off <= i < off + sz)%nat then src !! (i - off)%nat else dst !! i.
Proof.
  intros Hd Hs. unfold memcpy. rewrite (take_ge src sz) by lia.
  assert (Ht : length (take off dst) = off) by (rewrite length_take; lia).
  destruct (decide (off <= i < off + sz)%nat) as [Hin|Hout].
  - rewrite lookup_app_r by lia. rewrite Ht.
    apply lookup_app_l. lia.
  - destruct (decide (i < off)%nat) as [Hlt|Hge].
    + rewrite lookup_app_l by lia. apply lookup_take_lt. exact Hlt.
    + rewrite lookup_app_r by lia. rewrite Ht.
      rewrite lookup_app_r by lia. rewrite lookup_drop. f_equal. lia.
Qed.

Lemma length_memcpy (dst src : list uint8_t) off sz :
  (off + sz <= length dst)%nat -> length src = sz ->
  length (memcpy dst off src sz) = length dst.
Proof.
  intros Hd Hs. unfold memcpy.
  rewrite !length_app, !length_take, length_drop. lia.
Qed.

Lemma slice_ext (l1 l2 : list uint8_t) o s :
  (forall i, (i < s)%nat -> l1 !! (o + i)%nat = l2 !! (o + i)%nat) ->
  take s (drop o l1) = take s (drop o l2).
Proof.
  intros H. apply list_eq. intros i. rewrite !lookup_take, !lookup_drop.
  destruct (decide (i < s)%nat); auto.
Qed.

Lemma slice_is (l src : list uint8_t) o s :
  length src = s ->
  (forall i, (i < s)%nat -> l !! (o + i)%nat = src !! i) ->
  take s (drop o l) = src.
Proof.
  intros Hs H. apply list_eq. intros i. rewrite lookup_take, lookup_drop.
  destruct (decide (i < s)%nat); [auto|].
  symmetry. apply lookup_ge_None_2. lia.
Qed.

(** One [setArg]: the buffer is long enough for the argument and never
    shrinks, the argument's bytes are at its offset, and every range
    inside the old buffer that does not meet the written one is as it
    was. *)
Lemma setArg_spec (c : arg_call) (ei : CHIPExecItem) :
  call_ok c ->
  exists ei',
    setArg (call_arg c) (call_size c) (call_offset c) ei = Ok ei'
    /\ call_offset c + call_size c <= Z.of_nat (length (arg_data ei'))
    /\ (length (arg_data ei) <= length (arg_data ei'))%nat
    /\ arg_in_place (arg_data ei') c
    /\ forall o s, 0 <= o -> 0 <= s ->
         o + s <= Z.of_nat (length (arg_data ei)) ->
         (o + s <= call_offset c \/ call_offset c + call_size c <= o) ->
         bytes_at o s (arg_data ei') = bytes_at o s (arg_data ei).
Proof.
  destruct c as [arg size offset]. unfold call_ok, arg_in_place. simpl.
  intros (Ho & Hs & Hsmall & Hlen).
  assert (Hmax := size_max_pos).
  unfold setArg.
  rewrite (wrap64_small (offset + size)) by (unfold is_size_t; lia).
  rewrite (wrap64_small (offset + size + 1024)) by (unfold is_size_t; lia).
  set (data := if offset + size >? Z.of_nat (length (arg_data ei))
               then resize (Z.to_nat (offset + size + 1024)) (arg_data ei)
               else arg_data ei).
  assert (Hdata : offset + size <= Z.of_nat (length data)
                  /\ (length (arg_data ei) <= length data)%nat
                  /\ forall i, (i < length (arg_data ei))%nat ->
                               data !! i = arg_data ei !! i).
  { subst data.
    destruct (Z.gtb_spec (offset + size) (Z.of_nat (length (arg_data ei)))) as [Hgt|Hle].
    - rewrite length_resize. split; [lia|]. split; [lia|].
      intros i Hi. apply resize_lookup_lt; lia.
    - split; [lia|]. split; [lia|]. auto. }
  destruct Hdata as (Hfit & Hgrow & Hsame).
  replace (offset + size <=? Z.of_nat (length data)) with true
    by (symmetry; apply Z.leb_le; lia).
  replace (size <=? Z.of_nat (length arg)) with true
    by (symmetry; apply Z.leb_le; lia).
  simpl. eexists. split; [reflexivity|]. simpl.
  assert (Hd : (Z.to_nat offset + Z.to_nat size <= length data)%nat) by lia.
  assert (Ha : length arg = Z.to_nat size) by lia.
  rewrite (length_memcpy _ _ _ _ Hd Ha).
  split; [exact Hfit|]. split; [exact Hgrow|]. split.
  - unfold bytes_at. apply slice_is; [exact Ha|].
    intros i Hi. rewrite (memcpy_lookup _ _ _ _ _ Hd Ha).
    destruct (decide _) as [_|Hn]; [f_equal; lia|lia].
  - intros o s Ho' Hs' Hin Hapart. unfold bytes_at. apply slice_ext.
    intros i Hi. rewrite (memcpy_lookup _ _ _ _ _ Hd Ha).
    destruct (decide _) as [Hn|_]; [lia|].
    apply Hsame. lia.
Qed.

(** A range inside the buffer that no later call writes to keeps its
    bytes through those calls. *)
Lemma setArgs_keeps (calls : list arg_call) : forall (ei : CHIPExecItem) o s,
  Forall call_ok calls -> 0 <= o -> 0 <= s ->
  o + s <= Z.of_nat (length (arg_data ei)) ->
  Forall (fun c => o + s <= call_offset c \/ call_offset c + call_size c <= o) calls ->
  exists ei',
    setArgs calls ei = Ok ei'
    /\ bytes_at o s (arg_data ei') = bytes_at o s (arg_data ei).
Proof.
  induction calls as [|c rest IH]; intros ei o s Hok Ho Hs Hin Hap; simpl.
  - eauto.
  - inversion Hok as [|? ? Hc Hrest]; subst.
    inversion Hap as [|? ? Hc' Hrest']; subst.
    destruct (setArg_spec c ei Hc) as (ei1 & -> & _ & Hgrow & _ & Hkeep). simpl.
    destruct (IH ei1 o s Hrest Ho Hs ltac:(lia) Hrest') as (ei' & -> & Heq).
    eexists. split; [reflexivity|].
    rewrite Heq. apply Hkeep; assumption.
Qed.

(** Calls on ranges that do not overlap: afterwards every argument is in
    place. *)
Lemma setArgs_in_place (calls : list arg_call) : forall (ei : CHIPExecItem),
  Forall call_ok calls -> ForallOrdPairs apart calls ->
  exists ei',
    setArgs calls ei = Ok ei' /\ Forall (arg_in_place (arg_data ei')) calls.
Proof.
  induction calls as [|c rest IH]; intros ei Hok Hap; simpl.
  - eauto.
  - inversion Hok as [|? ? Hc Hrest]; subst.
    inversion Hap as [|? ? Hc' Hrest']; subst.
    destruct (setArg_spec c ei Hc) as (ei1 & -> & Hfit & _ & Hplace & _). simpl.
    destruct (IH ei1 Hrest Hrest') as (ei' & Hrun & Hall).
    destruct Hc as (Ho & Hs & _).
    destruct (setArgs_keeps rest ei1 (call_offset c) (call_size c)
                Hrest Ho Hs Hfit) as (ei'' & Hrun' & Hkeep).
    { eapply Forall_impl; [exact Hc'|]. unfold apart. simpl. intros; lia. }
    rewrite Hrun. eexists. split; [reflexivity|].
    constructor; [|exact Hall].
    rewrite Hrun in Hrun'. inversion Hrun'; subst ei''.
    unfold arg_in_place in *. rewrite Hkeep. exact Hplace.
Qed.

(** C8: three arguments set at offsets 0, 8 and 16 with sizes 4, 8 and 4,
    in any of the six orders: [getArgData] then has each argument's
    bytes, unchanged, at its offset; the buffer has grown to hold them. *)
Theorem setArg_round_trip_any_order
        (a0 a1 a2 : list uint8_t) (calls : list arg_call) (ei : CHIPExecItem) :
  length a0 = 4%nat -> length a1 = 8%nat -> length a2 = 4%nat ->
  calls ≡ₚ three_calls a0 a1 a2 ->
  exists ei',
    setArgs calls ei = Ok ei'
    /\ bytes_at 0 4 (getArgData ei') = a0
    /\ bytes_at 8 8 (getArgData ei') = a1
    /\ bytes_at 16 4 (getArgData ei') = a2
    /\ 20 <= Z.of_nat (length (getArgData ei')).
Proof.
  intros H0 H1 H2 Hperm.
  assert (Hok : Forall call_ok (three_calls a0 a1 a2)).
  { unfold three_calls, call_ok, size_max. repeat constructor; simpl; lia. }
  assert (Hcases : calls ∈ permutations (three_calls a0 a1 a2))
    by (apply permutations_Permutation; symmetry; exact Hperm).
  assert (Hap : ForallOrdPairs apart calls).
  { unfold three_calls in Hcases. simpl in Hcases.
    repeat (apply elem_of_cons in Hcases as [->|Hcases]);
      [..|apply elem_of_nil in Hcases; contradiction];
      unfold apart; repeat constructor; simpl; lia. }
  destruct (setArgs_in_place calls ei) as (ei' & Hrun & Hall).
  { rewrite Hperm. exact Hok. }
  { exact Hap. }
  exists ei'. split; [exact Hrun|].
  rewrite Hperm in Hall. unfold three_calls in Hall.
  inversion Hall as [|? ? P0 Hall1]; subst.
  inversion Hall1 as [|? ? P1 Hall2]; subst.
  inversion Hall2 as [|? ? P2 _]; subst.
  unfold arg_in_place in *. simpl in *. unfold getArgData.
  repeat split; try assumption.
  assert (Hl : length (bytes_at 16 4 (arg_data ei')) = 4%nat) by (rewrite P2; exact H2).
  unfold bytes_at in Hl. rewrite length_take, length_drop in Hl. lia.
Qed.

Lemma setArg_round_trip_any_order_witness :
  let a0 := [Byte.x01; Byte.x02; Byte.x03; Byte.x04] in
  let a1 := [Byte.x11; Byte.x12; Byte.x13; Byte.x14;
             Byte.x15; Byte.x16; Byte.x17; Byte.x18] in
  let a2 := [Byte.xa1; Byte.xa2; Byte.xa3; Byte.xa4] in
  exists ei',
    setArgs [ {| call_arg := a2; call_size := 4; call_offset := 16 |};
              {| call_arg := a0; call_size := 4; call_offset := 0 |};
              {| call_arg := a1; call_size := 8; call_offset := 8 |} ]
            (create 0 1) = Ok ei'
    /\ bytes_at 0 4 (getArgData ei') = a0
    /\ bytes_at 8 8 (getArgData ei') = a1
    /\ bytes_at 16 4 (getArgData ei') = a2
    /\ 20 <= Z.of_nat (length (getArgData ei')).
Proof.
  intros a0 a1 a2.
  apply (setArg_round_trip_any_order a0 a1 a2); try reflexivity.
  unfold three_calls.
  apply (Permutation_cons_app [_; _] []). reflexivity.
Defined.

(** The buffer's length does depend on the order: the first call sizes
    it. *)
Example setArg_buffer_length_by_first_call :
  let a := [Byte.x01; Byte.x02; Byte.x03; Byte.x04] in
  (length ∘ getArgData <$>
     match setArg a 4 0 (create 0 1) with Ok ei => Some ei | _ => None end)
  = Some 1028%nat
  /\ (length ∘ getArgData <$>
        match setArg a 4 16 (create 0 1) with Ok ei => Some ei | _ => None end)
     = Some 1044%nat.
Proof. split; vm_compute; reflexivity. Qed.

End ExecItemProps.

(** ** Device variables of a module *)

Module DeviceVarsProps.

Import Device Context DeviceVars.

(** C9, as stated, fails for [allocateDeviceVariablesNoLock] on its own:
    on a module without variables it marks the module allocated, returns
    [hipSuccess] and submits nothing, but the module is not marked
    initialised. *)
Lemma allocate_alone_not_initialized :
  exists m',
    sample_allocate 0%nat 1 empty_module idle_runtime
    = Ok ((hipSuccess, m'), idle_runtime)
    /\ DeviceVariablesAllocated m' = true
    /\ DeviceVariablesInitialized m' = false.
Proof. eexists. split; [reflexivity|]. split; reflexivity. Qed.

Section Lifecycle.

Context {driver : Type}.
Variable allocate_ : Z -> Z -> CHIPMemoryType -> driver -> Z * driver.
Variables ChipVarInfoPrefix ChipVarBindPrefix ChipVarInitPrefix : string.
Variable sizeof_CHIPVarInfo : Z.
Variable var_info : string -> Z * Z * Z.
Variable VarInfoBufH : Z.

Let allocateNoLock :=
  allocateDeviceVariablesNoLock allocate_ ChipVarInfoPrefix ChipVarBindPrefix
    sizeof_CHIPVarInfo var_info VarInfoBufH.

Let initializeNoLock :=
  initializeDeviceVariablesNoLock allocate_ ChipVarInfoPrefix ChipVarBindPrefix
    ChipVarInitPrefix sizeof_CHIPVarInfo var_info VarInfoBufH.

(** C9, amended: on a module that declares no device variable,
    [allocateDeviceVariablesNoLock] marks the module allocated and
    returns [hipSuccess], and [initializeDeviceVariablesNoLock] marks it
    both allocated and initialised; either returns with the runtime as
    it was: no shadow kernel is enqueued, nothing is allocated and no
    blocking synchronisation is issued. *)
Theorem no_variables_no_work (Device : nat) (Queue : Z) (m : CHIPModule)
        (rt : runtime driver) :
  chip_vars m = [] ->
  (exists m',
      allocateNoLock Device Queue m rt = Ok ((hipSuccess, m'), rt)
      /\ DeviceVariablesAllocated m' = true
      /\ DeviceVariablesInitialized m' = DeviceVariablesInitialized m)
  /\ (exists m',
         initializeNoLock Device Queue m rt = Ok (m', rt)
         /\ DeviceVariablesAllocated m' = true
         /\ DeviceVariablesInitialized m' = true).
Proof.
  intros Hv. subst allocateNoLock initializeNoLock.
  unfold initializeDeviceVariablesNoLock, allocateDeviceVariablesNoLock, mbind.
  rewrite Hv. simpl.
  destruct (DeviceVariablesAllocated m), (DeviceVariablesInitialized m); simpl;
    (split; eexists; (split; [reflexivity|]); simpl; auto).
Qed.

End Lifecycle.

Lemma no_variables_no_work_witness :
  (exists m',
      sample_allocate 0%nat 1 empty_module idle_runtime
      = Ok ((hipSuccess, m'), idle_runtime)
      /\ DeviceVariablesAllocated m' = true
      /\ DeviceVariablesInitialized m' = DeviceVariablesInitialized empty_module)
  /\ (exists m',
         sample_initialize 0%nat 1 empty_module idle_runtime = Ok (m', idle_runtime)
         /\ DeviceVariablesAllocated m' = true
         /\ DeviceVariablesInitialized m' = true).
Proof.
  apply (no_variables_no_work bump_allocate_ "__chip_var_info_" "__chip_var_bind_"
           "__chip_var_init_" 24 (fun _ => (4, 4, 1)) 65536 0%nat 1
           empty_module idle_runtime).
  reflexivity.
Defined.

(** For comparison, a module with one variable goes through the three
    phases: an info kernel, the read-back and a synchronisation; the
    bind kernel and a synchronisation; the init kernel and a
    synchronisation. *)
Example one_variable_work :
  (submitted ∘ snd <$>
     match sample_initialize 0%nat 1 one_var_module idle_runtime with
     | Ok r => Some r | _ => None end)
  = Some [ Launch "__chip_var_info_x" [4096];
           MemCopyAsync 65536 4096 24;
           Finish;
           Launch "__chip_var_bind_x" [4120];
           Finish;
           Launch "__chip_var_init_x" [];
           Finish ].
Proof. vm_compute. reflexivity. Qed.

End DeviceVarsProps.

(** ** Device selection *)

Module MatchingProps.

Import Device Matching.

Lemma check_fields_cons field fields properties currentProp counts :
  check_fields (field :: fields) properties currentProp counts
  = check_fields fields properties currentProp
      (check_prop (field properties) (field currentProp) counts).
Proof. reflexivity. Qed.

(** One check: [validPropCount] goes up by one for a requested field,
    [matchedCount] by one for a requested field that is met. *)
Lemma check_prop_spec requested current v m :
  check_prop requested current (v, m)
  = (v + requested_one requested, m + met_one requested current).
Proof.
  unfold check_prop, requested_one, met_one.
  destruct (Z.eqb_spec requested 0) as [->|Hne]; simpl.
  - f_equal; lia.
  - rewrite Z.geb_leb. destruct (requested <=? current); f_equal; lia.
Qed.

Lemma met_one_spec requested current :
  0 <= met_one requested current <= requested_one requested
  /\ (met_one requested current = requested_one requested
      <-> requested = 0 \/ requested <= current).
Proof.
  unfold met_one, requested_one.
  destruct (Z.eqb_spec requested 0) as [->|Hne].
  - split; [lia|]. split; auto.
  - destruct (Z.leb_spec requested current) as [Hle|Hlt].
    + split; [lia|]. split; auto.
    + split; [lia|]. split; [lia|]. intros [H0|Hle]; [contradiction|lia].
Qed.

(** After the checks of a list of fields the two counters have gone up
    by the number of requested fields and by the number of them that
    are met. *)
Lemma check_fields_spec properties currentProp fields : forall v m,
  check_fields fields properties currentProp (v, m)
  = (v + requested_among fields properties,
     m + met_among fields properties currentProp).
Proof.
  induction fields as [|f fs IH]; intros v m.
  - unfold check_fields, requested_among, met_among. simpl. f_equal; lia.
  - rewrite check_fields_cons, check_prop_spec, IH.
    unfold requested_among, met_among. simpl. f_equal; lia.
Qed.

(** Over any list of fields, no more fields are met than are requested,
    and as many exactly when every field of the list is met. *)
Lemma met_among_spec properties currentProp fields :
  0 <= met_among fields properties currentProp <= requested_among fields properties
  /\ (met_among fields properties currentProp = requested_among fields properties
      <-> Forall (field_met properties currentProp) fields).
Proof.
  unfold met_among, requested_among.
  induction fields as [|f fs [IHb IHiff]]; simpl.
  - split; [lia|]. split; auto.
  - destruct (met_one_spec (f properties) (f currentProp)) as [Hb Hiff].
    split; [lia|]. rewrite Forall_cons. unfold field_met at 1.
    rewrite <- Hiff, <- IHiff. lia.
Qed.

Lemma requested_one_spec requested :
  0 <= requested_one requested /\ (requested_one requested = 0 <-> requested = 0).
Proof.
  unfold requested_one. destruct (Z.eqb_spec requested 0); split; lia.
Qed.

Lemma requested_among_spec properties fields :
  0 <= requested_among fields properties
  /\ (requested_among fields properties = 0
      <-> Forall (fun field => field properties = 0) fields).
Proof.
  unfold requested_among.
  induction fields as [|f fs [IHb IHiff]]; simpl.
  - split; [lia|]. split; auto.
  - destruct (requested_one_spec (f properties)) as [Hb Hiff].
    split; [lia|]. rewrite Forall_cons, <- Hiff, <- IHiff. lia.
Qed.

(** The counters at the end of one iteration are the number of
    requested fields among the fourteen and the number of them the
    device meets; the two agree exactly when the device meets the
    compared part of the request. *)
Lemma count_props_spec properties d :
  count_props properties (hip_device_props d)
  = (requested_compared properties, met_compared properties d)
  /\ 0 <= met_compared properties d <= requested_compared properties
  /\ (met_compared properties d = requested_compared properties
      <-> meets_compared properties d).
Proof.
  assert (Hr : requested_among checked_fields properties
               = requested_compared properties).
  { unfold requested_among, checked_fields, requested_compared.
    cbn [foldr]. lia. }
  assert (Hm : met_among checked_fields properties (hip_device_props d)
               = met_compared properties d).
  { unfold met_among, checked_fields, met_compared. cbn [foldr]. lia. }
  assert (Hf : Forall (field_met properties (hip_device_props d)) checked_fields
               <-> meets_compared properties d).
  { unfold checked_fields, meets_compared. cbv zeta.
    rewrite !Forall_cons, Forall_nil. tauto. }
  destruct (met_among_spec properties (hip_device_props d) checked_fields)
    as [Hb Hiff].
  rewrite <- Hr, <- Hm, <- Hf. split; [|split; assumption].
  unfold count_props. rewrite check_fields_spec. reflexivity.
Qed.

(** Once a device has been taken, no later device replaces it. *)
Lemma device_loop_settled properties devs : forall p md,
  device_loop properties devs p md (requested_compared properties) = md.
Proof.
  induction devs as [|dev rest IH]; intros p md; simpl; [reflexivity|].
  unfold copyDeviceProperties.
  destruct (count_props_spec properties dev) as (-> & Hj & _).
  destruct (requested_compared properties =? met_compared properties dev) eqn:E.
  - apply Z.eqb_eq in E. rewrite <- E.
    replace (requested_compared properties >? requested_compared properties)
      with false by (rewrite Z.gtb_ltb; symmetry; apply Z.ltb_irrefl).
    rewrite Z.max_id. apply IH.
  - apply IH.
Qed.

(** Before any device has been taken, the loop takes the first device
    that meets the compared part of the request. *)
Lemma device_loop_first properties devs : forall p md,
  0 < requested_compared properties ->
  device_loop properties devs p md 0
  = match list_find (meets_compared properties) devs with
    | Some (i, _) => points_to (p + i)
    | None => md
    end.
Proof.
  induction devs as [|dev rest IH]; intros p md HK; simpl; [reflexivity|].
  unfold copyDeviceProperties.
  destruct (count_props_spec properties dev) as (-> & Hj & Hiff).
  destruct (decide (meets_compared properties dev)) as [Hm|Hn].
  - apply Hiff in Hm. rewrite Hm, Z.eqb_refl.
    replace (requested_compared properties >? 0) with true
      by (symmetry; apply Z.gtb_lt; exact HK).
    rewrite Z.max_l by lia. rewrite device_loop_settled.
    simpl. f_equal. lia.
  - replace (requested_compared properties =? met_compared properties dev)
      with false.
    + rewrite IH by exact HK.
      destruct (list_find (meets_compared properties) rest) as [[i x]|]; simpl;
        [|reflexivity].
      f_equal. lia.
    + symmetry. apply Z.eqb_neq. intros E. apply Hn, Hiff. lia.
Qed.

(** No field is requested exactly when each of the fourteen is zero. *)
Lemma requested_compared_spec properties :
  0 <= requested_compared properties
  /\ (requested_compared properties = 0
      <-> major properties = 0 /\ minor properties = 0
          /\ totalGlobalMem properties = 0 /\ sharedMemPerBlock properties = 0
          /\ maxThreadsPerBlock properties = 0 /\ totalConstMem properties = 0
          /\ multiProcessorCount properties = 0
          /\ maxThreadsPerMultiProcessor properties = 0
          /\ memoryClockRate properties = 0 /\ memoryBusWidth properties = 0
          /\ l2CacheSize properties = 0 /\ regsPerBlock properties = 0
          /\ maxSharedMemoryPerMultiProcessor properties = 0
          /\ warpSize properties = 0).
Proof.
  assert (Hr : requested_among checked_fields properties
               = requested_compared properties).
  { unfold requested_among, checked_fields, requested_compared.
    cbn [foldr]. lia. }
  destruct (requested_among_spec properties checked_fields) as [Hb Hiff].
  rewrite <- Hr. split; [exact Hb|]. rewrite Hiff.
  unfold checked_fields. rewrite !Forall_cons, Forall_nil. tauto.
Qed.

Lemma requested_compared_nonneg properties : 0 <= requested_compared properties.
Proof. apply requested_compared_spec. Qed.

Ltac solve_meets := unfold meets_compared, field_met; simpl; lia.

(** C2, as stated, fails twice.  With a device of major 5 listed before
    a device of major 3, a request for major 3 is met by both with the
    same count, and the function returns the first one, not the one
    with the lowest major.  And a request for major 3 and a clock rate
    of 1000 returns a device whose clock rate is 1: the device does not
    meet or exceed every non-zero requested field, because [clockRate]
    is not among the fields the function compares. *)
Lemma first_match_not_lowest_major :
  findDeviceMatchingProps (only_major 3) high_then_low = points_to 0
  /\ chip_devices high_then_low !! 1%nat = Some (device_with_major 1 3)
  /\ meets_compared (only_major 3) (device_with_major 0 5)
  /\ meets_compared (only_major 3) (device_with_major 1 3)
  /\ met_compared (only_major 3) (device_with_major 0 5)
     = met_compared (only_major 3) (device_with_major 1 3)
  /\ major (hip_device_props (device_with_major 1 3))
     < major (hip_device_props (device_with_major 0 5))
  /\ findDeviceMatchingProps (major_and_clockRate 3 1000) (one_clock 1) = points_to 0
  /\ chip_devices (one_clock 1) !! 0%nat = Some (device_with_clockRate 0 3 1)
  /\ ~ field_met (major_and_clockRate 3 1000)
         (hip_device_props (device_with_clockRate 0 3 1)) clockRate.
Proof.
  split; [reflexivity|]. split; [reflexivity|].
  split; [solve_meets|]. split; [solve_meets|].
  split; [reflexivity|]. split; [simpl; lia|].
  split; [reflexivity|]. split; [reflexivity|].
  unfold field_met. simpl. lia.
Qed.

(** C2, amended: for a request with at least one non-zero field among
    the fourteen that the function compares, a device the function
    returns meets or exceeds every requested one of these fourteen
    fields, its count of met fields is the number of requested ones
    among them, which no device exceeds, and it is the first such
    device in the backend's list; and when some device meets every
    requested one of the fourteen fields, the function returns a
    device. *)
Theorem findDeviceMatchingProps_first_match (properties : hipDeviceProp_t)
        (B : CHIPBackend) :
  0 < requested_compared properties ->
  (forall p, findDeviceMatchingProps properties B = points_to p ->
     exists d,
       chip_devices B !! p = Some d
       /\ meets_compared properties d
       /\ met_compared properties d = requested_compared properties
       /\ (forall d', d' ∈ chip_devices B ->
            met_compared properties d' <= met_compared properties d)
       /\ (forall p' d', (p' < p)%nat -> chip_devices B !! p' = Some d' ->
            ~ meets_compared properties d'))
  /\ ((exists d, d ∈ chip_devices B /\ meets_compared properties d) ->
      exists p, findDeviceMatchingProps properties B = points_to p).
Proof.
  intros HK. unfold findDeviceMatchingProps.
  rewrite device_loop_first by exact HK. split.
  - intros p Hp.
    destruct (list_find (meets_compared properties) (chip_devices B))
      as [[i d]|] eqn:Hf; [|discriminate].
    inversion Hp; subst p. simpl.
    apply list_find_Some in Hf as (Hl & Hm & Hfirst).
    exists d. split; [exact Hl|]. split; [exact Hm|].
    destruct (count_props_spec properties d) as (_ & _ & Hiff).
    assert (Hd : met_compared properties d = requested_compared properties)
      by (apply Hiff; exact Hm).
    split; [exact Hd|]. split.
    + intros d' _. rewrite Hd.
      destruct (count_props_spec properties d') as (_ & Hj & _). lia.
    + intros p' d' Hlt Hl'. apply (Hfirst p' d' Hl'). lia.
  - intros (d & Hin & Hm).
    destruct (list_find (meets_compared properties) (chip_devices B))
      as [[i x]|] eqn:Hf.
    + eauto.
    + exfalso. eapply list_find_None in Hf.
      rewrite Forall_forall in Hf. exact (Hf d Hin Hm).
Qed.

Lemma findDeviceMatchingProps_first_match_witness :
  (forall p, findDeviceMatchingProps (only_major 3) mixed = points_to p ->
     exists d,
       chip_devices mixed !! p = Some d
       /\ meets_compared (only_major 3) d
       /\ met_compared (only_major 3) d = requested_compared (only_major 3)
       /\ (forall d', d' ∈ chip_devices mixed ->
            met_compared (only_major 3) d' <= met_compared (only_major 3) d)
       /\ (forall p' d', (p' < p)%nat -> chip_devices mixed !! p' = Some d' ->
            ~ meets_compared (only_major 3) d'))
  /\ ((exists d, d ∈ chip_devices mixed /\ meets_compared (only_major 3) d) ->
      exists p, findDeviceMatchingProps (only_major 3) mixed = points_to p).
Proof.
  apply (findDeviceMatchingProps_first_match (only_major 3) mixed).
  vm_compute. reflexivity.
Defined.

(** On the mixed list the request for major 3 returns the device at
    position 1 (major 5): the first that qualifies. *)
Example mixed_returns_first : findDeviceMatchingProps (only_major 3) mixed = points_to 1.
Proof. reflexivity. Qed.

(** When no device qualifies, [matched_device] is returned as it was
    declared: never assigned. *)
Example too_old_returns_unassigned :
  findDeviceMatchingProps (only_major 3) too_old = indeterminate.
Proof. reflexivity. Qed.

End MatchingProps.

(** ** The host-callback handshake *)

Module CallbackProps.

Import Event Callback.

(** The scenario, spelled out: the earlier operation has event 0; the
    record's three events are 1, 2 and 3; the two barriers and the
    marker have events 4, 5 and 6. *)
Lemma scenario_unfolded callback :
  queue (scenario callback)
  = [ {| kind := Operation; waits_for := []; op_event := 0 |};
      {| kind := Barrier; waits_for := []; op_event := 4 |};
      {| kind := Barrier; waits_for := [2%nat]; op_event := 5 |};
      {| kind := Marker; waits_for := []; op_event := 6 |} ]
  /\ scenario_record callback
     = Some {| callback_f := callback; callback_args := 0; gpu_ready := 1;
               cpu_callback_complete := 2; gpu_ack := 3 |}
  /\ events (scenario callback)
     = [ EVENT_STATUS_RECORDING; EVENT_STATUS_INIT; EVENT_STATUS_INIT;
         EVENT_STATUS_INIT; EVENT_STATUS_RECORDING; EVENT_STATUS_RECORDING;
         EVENT_STATUS_RECORDING ].
Proof. repeat split. Qed.

(** The part of the claim about the monitor's own order holds: for each
    record it waits for [gpu_ready], runs the callback, signals
    [cpu_callback_complete], and only then waits for [gpu_ack] and
    reclaims the record. *)
Lemma monitor_body_order cb :
  monitor [cb]
  = [ Wait (gpu_ready cb); Execute (callback_f cb);
      HostSignal (cpu_callback_complete cb); Wait (gpu_ack cb); Delete ].
Proof. reflexivity. Qed.

(** A set of states that holds the start and is closed under steps
    holds every reachable state. *)
Lemma reachable_closed b q s0 (states : list system) :
  s0 ∈ states ->
  (forall s s', s ∈ states -> s' ∈ next b q s -> s' ∈ states) ->
  forall s, reachable b q s0 s -> s ∈ states.
Proof.
  intros H0 Hclosed s Hr. induction Hr as [|s s' _ IH Hstep]; eauto.
Qed.

(** Exploring from reachable states meets reachable states only. *)
Lemma explore_sound b q s0 fuel : forall frontier,
  (forall s, s ∈ frontier -> reachable b q s0 s) ->
  forall s, s ∈ explore b q fuel frontier -> reachable b q s0 s.
Proof.
  induction fuel as [|fuel IH]; intros frontier Hf s Hs; simpl in Hs.
  - apply elem_of_nil in Hs. contradiction.
  - apply elem_of_app in Hs as [Hs|Hs]; [auto|].
    apply (IH (frontier ≫= next b q)); [|exact Hs].
    intros s' Hs'. apply list_elem_of_bind in Hs' as (s1 & Hstep & Hin).
    eapply reachable_step; eauto.
Qed.

Ltac in_list :=
  solve [ repeat first [ apply list_elem_of_here | apply list_elem_of_further ] ].

Ltac each_state H :=
  repeat (apply elem_of_cons in H as [->|H]);
  [..|apply elem_of_nil in H; contradiction].

(** With [wait] blocking on an event that was never recorded, the
    scenario has three reachable states: the device completes the
    earlier operation and the first barrier, and then everything
    stands still. *)
Lemma blocked_states callback s :
  reachable false (queue (scenario callback)) (start (scenario callback)) s ->
  s ∈ explore false (queue (scenario callback)) 3 [start (scenario callback)].
Proof.
  apply reachable_closed.
  - vm_compute. in_list.
  - intros s1 s' Hs Hstep. vm_compute in Hs.
    each_state Hs; vm_compute in Hstep; each_state Hstep; vm_compute; in_list.
Qed.

(** [setup] on any world: the record's [gpu_ready] and [gpu_ack] are the
    first and third of the three created events; the events of the
    barrier and of the marker it enqueues are the three after them. *)
Lemma setup_members callback args w :
  let n := length (events w) in
  fst (setup callback args w)
  = {| callback_f := callback; callback_args := args; gpu_ready := n;
       cpu_callback_complete := S n; gpu_ack := S (S n) |}
  /\ queue (snd (setup callback args w))
     = queue w
       ++ [ {| kind := Barrier; waits_for := []; op_event := S (S (S n)) |};
            {| kind := Barrier; waits_for := [S n]; op_event := S (S (S (S n))) |};
            {| kind := Marker; waits_for := []; op_event := S (S (S (S (S n)))) |} ]
  /\ events (snd (setup callback args w)) !! n = Some EVENT_STATUS_INIT
  /\ events (snd (setup callback args w)) !! S (S n) = Some EVENT_STATUS_INIT.
Proof.
  intros n. subst n. unfold setup, enqueueBarrier, enqueueMarker, submitImpl,
    createCHIPEvent, updateLastEvent. simpl.
  repeat rewrite length_app. simpl. rewrite <- !app_assoc. simpl.
  split; [f_equal; lia|]. split; [repeat f_equal; lia|]. split.
  - rewrite lookup_app_r by lia. rewrite Nat.sub_diag. reflexivity.
  - rewrite lookup_app_r by lia.
    replace (S (S (length (events w))) - length (events w))%nat with 2%nat by lia.
    reflexivity.
Qed.

(** C3: on a queue with one earlier operation and one callback added,
    the events the monitor waits on are not the events of the barrier
    and of the marker that [setup] enqueues: [gpu_ready] and [gpu_ack]
    of the record are still in state INIT and belong to no operation of
    the queue.  If [wait] blocks on such an event, the host callback is
    never run and the device never gets past the second barrier; if
    [wait] returns at once on it, the host callback can run before the
    earlier operation has completed. *)
Theorem callback_waits_on_unbound_events (callback : nat) :
  (exists cb,
      scenario_record callback = Some cb
      /\ events (scenario callback) !! gpu_ready cb = Some EVENT_STATUS_INIT
      /\ events (scenario callback) !! gpu_ack cb = Some EVENT_STATUS_INIT
      /\ Forall (fun o => op_event o <> gpu_ready cb /\ op_event o <> gpu_ack cb)
                (queue (scenario callback)))
  /\ (forall s,
        reachable false (queue (scenario callback)) (start (scenario callback)) s ->
        observed s `prefix_of` [DeviceCompleted 0; DeviceCompleted 1]
        /\ pending s = monitor (callback_stack (scenario callback)))
  /\ (exists s,
        reachable true (queue (scenario callback)) (start (scenario callback)) s
        /\ observed s = [HostCallback callback]
        /\ device_pc s = 0%nat).
Proof.
  split; [|split].
  - eexists. split; [reflexivity|]. split; [reflexivity|]. split; [reflexivity|].
    repeat (apply List.Forall_cons; [simpl; lia|]). apply List.Forall_nil.
  - intros s Hr. apply blocked_states in Hr. vm_compute in Hr.
    each_state Hr; (split; [|reflexivity]).
    + exists [DeviceCompleted 0; DeviceCompleted 1]. reflexivity.
    + exists [DeviceCompleted 1]. reflexivity.
    + exists []. reflexivity.
  - eexists. split; [|split].
    + eapply reachable_step; [eapply reachable_step; [apply reachable_start|]|].
      * vm_compute. apply list_elem_of_further, list_elem_of_here.
      * vm_compute. apply list_elem_of_further, list_elem_of_here.
    + reflexivity.
    + reflexivity.
Qed.

(** With the record bound as the specification describes, the model
    gives the described order whatever [wait] does on an unrecorded
    event: every run observes a prefix of it, and the whole of it is
    reached. *)
Lemma described_states b callback s :
  reachable b (queue (described_scenario callback))
            (start (described_scenario callback)) s ->
  s ∈ explore b (queue (described_scenario callback)) 10
        [start (described_scenario callback)].
Proof.
  apply reachable_closed.
  - vm_compute. in_list.
  - intros s1 s' Hs Hstep. destruct b; vm_compute in Hs;
      each_state Hs; vm_compute in Hstep; each_state Hstep; vm_compute; in_list.
Qed.

Lemma described_handshake_order b callback :
  (forall s,
      reachable b (queue (described_scenario callback))
                (start (described_scenario callback)) s ->
      observed s `prefix_of` described_order callback)
  /\ (exists s,
        reachable b (queue (described_scenario callback))
                  (start (described_scenario callback)) s
        /\ observed s = described_order callback).
Proof.
  split.
  - intros s Hr. apply described_states in Hr.
    destruct b; vm_compute in Hr; each_state Hr;
      unfold described_order; eexists; simpl; reflexivity.
  - destruct b; eexists;
      (split;
       [ apply (explore_sound _ _ _ 10 [start (described_scenario callback)]);
         [ intros s Hs; apply list_elem_of_singleton in Hs as ->; apply reachable_start
         | vm_compute; do 9 apply list_elem_of_further; apply list_elem_of_here ]
       | reflexivity ]).
Qed.

End CallbackProps.

(** * Further properties of the code *)

(** ** The tracker: reservations, the high-water mark, the records *)

Module TrackerMoreProps.

Import Tracker TrackerProps.

(** What a [reserveMem] that returns has done. *)
Lemma reserveMem_effect (bytes : Z) (t : CHIPAllocationTracker) b t' :
  well_formed t -> is_size_t bytes ->
  reserveMem bytes t = Ok (b, t') ->
  total_mem_used t + bytes <= global_mem_size t
  /\ total_mem_used t' = total_mem_used t + bytes
  /\ max_mem_used t' = Z.max (max_mem_used t) (total_mem_used t + bytes)
  /\ global_mem_size t' = global_mem_size t
  /\ dev_to_allocation_info t' = dev_to_allocation_info t.
Proof.
  intros Hwf Hb. pose proof Hwf as [Hcap [Hlo Hhi]].
  unfold reserveMem, CHIPERR_LOG_AND_THROW.
  rewrite (wrap64_small (global_mem_size t - total_mem_used t))
    by (unfold is_size_t in *; lia).
  destruct (Z.leb_spec bytes (global_mem_size t - total_mem_used t)) as [Hle|Hgt];
    [|discriminate].
  rewrite wrap64_small by (unfold is_size_t in *; lia).
  intros H. inversion H; subst. simpl. split; [lia|]. repeat split.
  destruct (Z.gtb_spec (total_mem_used t + bytes) (max_mem_used t)); lia.
Qed.

(** X1: [reserveMem] on a tracker within its capacity succeeds exactly when
    the bytes in use plus the request stay within the capacity; a
    success adds the request to [total_mem_used], raises [max_mem_used]
    to the new total when that is higher, and touches nothing else; a
    failure is the out-of-memory error. *)
Theorem reserveMem_succeeds_iff_fits (bytes : Z) (t : CHIPAllocationTracker) :
  well_formed t -> is_size_t bytes ->
  ((exists t', reserveMem bytes t = Ok (true, t'))
   <-> total_mem_used t + bytes <= global_mem_size t)
  /\ (forall b t', reserveMem bytes t = Ok (b, t') ->
        total_mem_used t' = total_mem_used t + bytes
        /\ max_mem_used t' = Z.max (max_mem_used t) (total_mem_used t + bytes)
        /\ global_mem_size t' = global_mem_size t
        /\ dev_to_allocation_info t' = dev_to_allocation_info t)
  /\ (global_mem_size t < total_mem_used t + bytes ->
      reserveMem bytes t = Throw hipErrorMemoryAllocation).
Proof.
  intros Hwf Hb. pose proof Hwf as [Hcap [Hlo Hhi]].
  unfold reserveMem, CHIPERR_LOG_AND_THROW.
  rewrite (wrap64_small (global_mem_size t - total_mem_used t))
    by (unfold is_size_t in *; lia).
  destruct (Z.leb_spec bytes (global_mem_size t - total_mem_used t)) as [Hle|Hgt].
  - rewrite wrap64_small by (unfold is_size_t in *; lia).
    split; [split; [lia|eauto]|]. split; [|lia].
    intros b t' H. inversion H; subst. simpl.
    repeat split.
    destruct (Z.gtb_spec (total_mem_used t + bytes) (max_mem_used t)); lia.
  - split; [split; [intros [t' H]; discriminate|lia]|].
    split; [discriminate|reflexivity].
Qed.

Lemma reserveMem_succeeds_iff_fits_witness :
  let t := with_used (create 100 "gpu") 60 70 in
  ((exists t', reserveMem 30 t = Ok (true, t'))
   <-> total_mem_used t + 30 <= global_mem_size t)
  /\ (forall b t', reserveMem 30 t = Ok (b, t') ->
        total_mem_used t' = total_mem_used t + 30
        /\ max_mem_used t' = Z.max (max_mem_used t) (total_mem_used t + 30)
        /\ global_mem_size t' = global_mem_size t
        /\ dev_to_allocation_info t' = dev_to_allocation_info t)
  /\ (global_mem_size t < total_mem_used t + 30 ->
      reserveMem 30 t = Throw hipErrorMemoryAllocation).
Proof.
  intros t. apply (reserveMem_succeeds_iff_fits 30 t).
  - unfold well_formed, within_capacity, is_size_t, size_max. simpl. lia.
  - unfold is_size_t, size_max. lia.
Defined.

(** One call: the high-water mark does not go down and stays between
    the bytes in use and the capacity. *)
Lemma after_call_high_water t c :
  well_formed t -> is_size_t (call_arg c) ->
  total_mem_used t <= max_mem_used t <= global_mem_size t ->
  max_mem_used t <= max_mem_used (after_call t c)
  /\ total_mem_used (after_call t c) <= max_mem_used (after_call t c)
     <= global_mem_size (after_call t c).
Proof.
  intros Hwf Hb Hm. pose proof Hwf as [Hcap [Hlo Hhi]].
  destruct c as [bytes|bytes]; unfold after_call.
  - destruct (reserveMem bytes t) as [[b t']| |] eqn:E; try lia.
    destruct (reserveMem_effect bytes t b t' Hwf Hb E) as (Hfit & Hu & Hmx & Hc & _).
    rewrite Hu, Hmx, Hc. lia.
  - unfold releaseMemReservation, call_arg in *.
    destruct (Z.geb_spec (total_mem_used t) bytes) as [Hge|Hlt]; simpl; [|lia].
    rewrite wrap64_small by (unfold is_size_t in *; lia).
    unfold is_size_t in *. lia.
Qed.

Lemma states_after_high_water cs : forall t,
  well_formed t -> Forall (fun c => is_size_t (call_arg c)) cs ->
  total_mem_used t <= max_mem_used t <= global_mem_size t ->
  Forall (fun t' => total_mem_used t' <= max_mem_used t' <= global_mem_size t)
         (states_after t cs)
  /\ Sorted Z.le (map max_mem_used (t :: states_after t cs)).
Proof.
  induction cs as [|c cs IH]; intros t Hwf Hcs Hm; simpl.
  - split; repeat constructor.
  - inversion Hcs as [|? ? Hc Hrest]; subst.
    destruct (after_call_well_formed t c Hwf Hc) as [Hwf' Hcap].
    destruct (after_call_high_water t c Hwf Hc Hm) as [Hup Hm'].
    destruct (IH (after_call t c) Hwf' Hrest Hm') as [Hall Hsorted].
    split.
    + constructor; [lia|].
      eapply Forall_impl; [exact Hall|]. simpl. intros t'. lia.
    + constructor; [exact Hsorted|]. simpl. constructor. exact Hup.
Qed.

(** X2: [max_mem_used] is a high-water mark: along any sequence of calls on
    a tracker created with capacity [cap] it never goes down, and after
    each call it is at least the bytes in use and at most the capacity. *)
Theorem max_mem_used_high_water (cap : Z) (nm : string) (cs : list call) :
  is_size_t cap ->
  Forall (fun c => is_size_t (call_arg c)) cs ->
  Forall (fun t => total_mem_used t <= max_mem_used t <= cap)
         (states_after (create cap nm) cs)
  /\ Sorted Z.le (map max_mem_used (create cap nm :: states_after (create cap nm) cs)).
Proof.
  intros Hcap Hcs.
  apply (states_after_high_water cs (create cap nm));
    [apply create_well_formed; exact Hcap|exact Hcs|].
  simpl. unfold is_size_t in Hcap. lia.
Qed.

Lemma max_mem_used_high_water_witness :
  Forall (fun t => total_mem_used t <= max_mem_used t <= 100)
         (states_after (create 100 "gpu") sample_calls)
  /\ Sorted Z.le (map max_mem_used
                      (create 100 "gpu" :: states_after (create 100 "gpu") sample_calls)).
Proof.
  apply (max_mem_used_high_water 100 "gpu" sample_calls).
  - unfold is_size_t, size_max. lia.
  - unfold sample_calls. repeat constructor; simpl; unfold size_max; lia.
Defined.

(** The mark along the sample run: it stays at 60 while 40 bytes are in
    use and rises with the later reservations. *)
Example sample_calls_high_water :
  map max_mem_used (states_after (create 100 "gpu") sample_calls)
  = [60; 60; 60; 60; 80; 81].
Proof. reflexivity. Qed.

(** X3: A recorded allocation is found again under its pointer, with the
    pointer as base and the recorded size; recording a pointer again
    replaces its record; the records of other pointers and the counters
    are as they were; a tracker as constructed knows no pointer. *)
Theorem recordAllocation_getByDevPtr (ptr sz sz' : Z) (t : CHIPAllocationTracker) :
  getByDevPtr ptr (recordAllocation ptr sz t)
  = Ok {| base_ptr := ptr; size := sz |}
  /\ getByDevPtr ptr (recordAllocation ptr sz' (recordAllocation ptr sz t))
     = Ok {| base_ptr := ptr; size := sz' |}
  /\ (forall other, other <> ptr ->
        getByDevPtr other (recordAllocation ptr sz t) = getByDevPtr other t)
  /\ total_mem_used (recordAllocation ptr sz t) = total_mem_used t
  /\ max_mem_used (recordAllocation ptr sz t) = max_mem_used t
  /\ (forall cap nm, getByDevPtr ptr (create cap nm) = Throw hipErrorTbd).
Proof.
  unfold getByDevPtr, recordAllocation. simpl.
  rewrite !lookup_insert_eq. repeat split.
  - intros other Hne. rewrite lookup_insert_ne by congruence. reflexivity.
Qed.

End TrackerMoreProps.

(** ** The context: allocation records, free, reset *)

Module ContextMoreProps.

Import Tracker Device Context ContextMore TrackerProps ContextProps.

Lemma findPointerInfo_store B p d t q :
  active_dev B = Some p -> Device.chip_devices B !! p = Some d ->
  findPointerInfo q (store B p (with_tracker d t))
  = (info <- getByDevPtr q t ;; Ok (hipSuccess, base_ptr info, size info)).
Proof.
  intros Ha Hd. unfold findPointerInfo, getActiveDevice, deref, store. simpl.
  rewrite Ha. simpl.
  rewrite list_lookup_insert_eq by (eapply lookup_lt_Some; exact Hd).
  reflexivity.
Qed.

Lemma tracker_at_store B p d t :
  Device.chip_devices B !! p = Some d ->
  tracker_at (store B p (with_tracker d t)) p = Some t.
Proof.
  intros Hd. unfold tracker_at, store. simpl.
  rewrite list_lookup_insert_eq by (eapply lookup_lt_Some; exact Hd).
  reflexivity.
Qed.

Lemma tracker_at_store_ne B p q d :
  p <> q -> tracker_at (store B p d) q = tracker_at B q.
Proof.
  intros Hne. unfold tracker_at, store. simpl.
  rewrite list_lookup_insert_ne by exact Hne. reflexivity.
Qed.

Section Native.

Context {driver : Type}.
Variable allocate_ : Z -> Z -> CHIPMemoryType -> driver -> Z * driver.
Variable free_ : Z -> driver -> driver.

(** X4: A successful [allocate]: when the request fits and the native
    allocator returns a non-null pointer, [allocate] returns that
    pointer, [total_mem_used] has gone up by the size, and
    [findPointerInfo] on the pointer answers [hipSuccess] with the
    pointer as base and the size asked for. *)
Theorem allocate_records_allocation this size alignment mem_type B drv p d t ptr drv' :
  active_dev B = Some p -> Device.chip_devices B !! p = Some d ->
  ctx d = this -> allocation_tracker d = Some t ->
  well_formed t -> is_size_t size ->
  size <= global_mem_size t - total_mem_used t ->
  allocate_ size alignment mem_type drv = (ptr, drv') -> ptr <> nullptr ->
  exists B',
    allocate allocate_ this size alignment mem_type B drv = Ok (ptr, B', drv')
    /\ total_mem_used <$> active_tracker B' = Some (total_mem_used t + size)
    /\ findPointerInfo ptr B' = Ok (hipSuccess, ptr, size).
Proof.
  intros Ha Hd Hc Ht Hwf Hs Hfit Hnat Hnn.
  rewrite (allocate_unfold _ _ _ _ _ _ _ _ _ _ Ha Hd Hc Ht).
  destruct (reserveMem_cases size t Hwf Hs)
    as [[Hgt _]|[_ (t1 & -> & Hu1 & _)]]; [lia|].
  simpl. rewrite Hnat.
  replace (ptr =? nullptr) with false by (symmetry; apply Z.eqb_neq; exact Hnn).
  eexists. split; [reflexivity|].
  rewrite (active_tracker_store _ _ _ _ Ha Hd).
  rewrite (findPointerInfo_store _ _ _ _ _ Ha Hd).
  split; [simpl; f_equal; exact Hu1|].
  unfold getByDevPtr, recordAllocation. simpl. rewrite lookup_insert_eq. reflexivity.
Qed.

(** X5: [allocate] followed by [free] of the returned pointer: [free]
    returns [hipSuccess], the pointer goes to the native [free_], and
    [total_mem_used] is back at its value from before the allocation. *)
Theorem allocate_then_free_restores this size alignment mem_type B drv p d t ptr drv' :
  active_dev B = Some p -> Device.chip_devices B !! p = Some d ->
  ctx d = this -> allocation_tracker d = Some t ->
  well_formed t -> is_size_t size ->
  size <= global_mem_size t - total_mem_used t ->
  allocate_ size alignment mem_type drv = (ptr, drv') -> ptr <> nullptr ->
  exists B' B'',
    allocate allocate_ this size alignment mem_type B drv = Ok (ptr, B', drv')
    /\ free free_ ptr B' drv' = Ok (hipSuccess, B'', free_ ptr drv')
    /\ total_mem_used <$> active_tracker B'' = Some (total_mem_used t).
Proof.
  intros Ha Hd Hc Ht Hwf Hs Hfit Hnat Hnn.
  rewrite (allocate_unfold _ _ _ _ _ _ _ _ _ _ Ha Hd Hc Ht).
  destruct (reserveMem_cases size t Hwf Hs)
    as [[Hgt _]|[_ (t1 & -> & Hu1 & _)]]; [lia|].
  simpl. rewrite Hnat.
  replace (ptr =? nullptr) with false by (symmetry; apply Z.eqb_neq; exact Hnn).
  set (t3 := recordAllocation ptr size t1).
  assert (Hd' : Device.chip_devices (store B p (with_tracker d t3)) !! p
                = Some (with_tracker d t3)).
  { unfold store. simpl. apply list_lookup_insert_eq. eapply lookup_lt_Some; exact Hd. }
  assert (Ha' : active_dev (store B p (with_tracker d t3)) = Some p) by exact Ha.
  eexists _, _. split; [reflexivity|].
  rewrite (free_unfold free_ ptr (store B p (with_tracker d t3)) drv' p
             (with_tracker d t3) t3 {| base_ptr := ptr; size := size |} Ha' Hd' eq_refl)
    by (unfold t3, recordAllocation; simpl; apply lookup_insert_eq).
  split; [reflexivity|].
  rewrite (active_tracker_store _ _ _ _ Ha' Hd'). simpl. f_equal.
  assert (Hu3 : is_size_t (total_mem_used t3)).
  { destruct Hwf as [Hcap Hin]. unfold t3, within_capacity, is_size_t in *. simpl. lia. }
  destruct (releaseMemReservation_cases size t3 Hu3 Hs)
    as [(_ & _ & Hu & _)|[Hlt _]].
  - rewrite Hu. unfold t3. simpl. lia.
  - destruct Hwf as [_ Hin]. unfold t3, within_capacity, is_size_t in *.
    simpl in Hlt. lia.
Qed.

(** X6: [free] of a pointer the tracker has no record of throws [hipErrorTbd];
    and whenever [free] returns, it returns [hipSuccess], having passed
    the pointer to the native [free_]: it never returns
    [hipErrorInvalidDevicePointer]. *)
Theorem free_unknown_pointer_throws ptr B drv p d t :
  active_dev B = Some p -> Device.chip_devices B !! p = Some d ->
  allocation_tracker d = Some t ->
  dev_to_allocation_info t !! ptr = None ->
  free free_ ptr B drv = Throw hipErrorTbd
  /\ forall q e B' drv',
       free free_ q B drv = Ok (e, B', drv') ->
       e = hipSuccess /\ drv' = free_ q drv
       /\ is_Some (dev_to_allocation_info t !! q).
Proof.
  intros Ha Hd Ht Hnone. split.
  - unfold free, getActiveDevice, deref, getByDevPtr.
    rewrite Ha. simpl. rewrite Hd. simpl. rewrite Ht. simpl. rewrite Hnone.
    reflexivity.
  - intros q e B' drv'. unfold free, getActiveDevice, deref, getByDevPtr.
    rewrite Ha. simpl. rewrite Hd. simpl. rewrite Ht. simpl.
    destruct (dev_to_allocation_info t !! q) as [info|]; simpl; [|discriminate].
    intros H. inversion H; subst. eauto.
Qed.

(** X7: When the native allocator fails, [allocate] still records the
    returned pointer: afterwards the tracker has a record for the null
    pointer with the requested size, and [findPointerInfo] on the null
    pointer answers [hipSuccess]. *)
Theorem failed_allocate_records_null this size alignment mem_type B drv p d t :
  active_dev B = Some p -> Device.chip_devices B !! p = Some d ->
  ctx d = this -> allocation_tracker d = Some t ->
  well_formed t -> is_size_t size ->
  size <= global_mem_size t - total_mem_used t ->
  fst (allocate_ size alignment mem_type drv) = nullptr ->
  exists B' drv',
    allocate allocate_ this size alignment mem_type B drv = Ok (nullptr, B', drv')
    /\ findPointerInfo nullptr B' = Ok (hipSuccess, nullptr, size).
Proof.
  intros Ha Hd Hc Ht Hwf Hs Hfit Hnull.
  rewrite (allocate_unfold _ _ _ _ _ _ _ _ _ _ Ha Hd Hc Ht).
  destruct (reserveMem_cases size t Hwf Hs)
    as [[Hgt _]|[_ (t1 & -> & _)]]; [lia|].
  simpl. destruct (allocate_ size alignment mem_type drv) as [ptr drv'].
  simpl in Hnull. subst ptr. simpl.
  eexists _, _. split; [reflexivity|].
  rewrite (findPointerInfo_store _ _ _ _ _ Ha Hd).
  unfold getByDevPtr, recordAllocation. simpl. rewrite lookup_insert_eq. reflexivity.
Qed.

End Native.

(** The second loop of [reset], on devices that all have a tracker: each
    of them ends with nothing in use, its capacity, high-water mark and
    records kept; the other devices are not touched. *)
Lemma release_reservations_spec devs : forall B,
  (forall p, p ∈ devs -> is_Some (tracker_at B p)) ->
  exists B',
    release_reservations devs B = Ok B'
    /\ active_dev B' = active_dev B
    /\ (forall p, p ∉ devs -> Device.chip_devices B' !! p = Device.chip_devices B !! p)
    /\ (forall p, p ∈ devs ->
          exists t, tracker_at B p = Some t
                    /\ tracker_at B' p = Some (with_used t 0 (max_mem_used t))).
Proof.
  induction devs as [|dev rest IH]; intros B Hall; simpl.
  - exists B. repeat split; auto. intros p Hp. apply elem_of_nil in Hp. contradiction.
  - destruct (Hall dev ltac:(left)) as [t Ht].
    unfold tracker_at in Ht. unfold deref.
    destruct (Device.chip_devices B !! dev) as [d|] eqn:Hd; [|discriminate].
    simpl in Ht. simpl. rewrite Ht. simpl.
    assert (Ht' : snd (releaseMemReservation (total_mem_used t) t)
                  = with_used t 0 (max_mem_used t)).
    { unfold releaseMemReservation.
      replace (total_mem_used t >=? total_mem_used t) with true
        by (symmetry; apply Z.geb_le; lia).
      simpl. rewrite Z.sub_diag. reflexivity. }
    rewrite Ht'. set (t' := with_used t 0 (max_mem_used t)).
    set (B1 := store B dev (with_tracker d t')).
    assert (H1 : tracker_at B1 dev = Some t') by (apply tracker_at_store; exact Hd).
    destruct (IH B1) as (B' & -> & Hact & Hout & Hin).
    { intros q Hq. destruct (decide (q = dev)) as [->|Hne].
      - rewrite H1. eauto.
      - unfold B1. rewrite tracker_at_store_ne by congruence.
        apply Hall. right. exact Hq. }
    exists B'. split; [reflexivity|]. split; [exact Hact|]. split.
    + intros q Hq. apply not_elem_of_cons in Hq as [Hne Hq].
      rewrite (Hout q Hq). unfold B1, store. simpl.
      apply list_lookup_insert_ne. congruence.
    + intros q Hq. destruct (decide (q ∈ rest)) as [Hr|Hr].
      * destruct (Hin q Hr) as (t1 & Hq1 & Hq').
        destruct (decide (q = dev)) as [->|Hne].
        -- exists t. split; [unfold tracker_at; rewrite Hd; exact Ht|].
           rewrite H1 in Hq1. inversion Hq1; subst t1. exact Hq'.
        -- exists t1. split; [|exact Hq'].
           unfold B1 in Hq1. rewrite tracker_at_store_ne in Hq1 by congruence.
           exact Hq1.
      * apply elem_of_cons in Hq as [->|Hq]; [|contradiction].
        exists t. split; [unfold tracker_at; rewrite Hd; exact Ht|].
        unfold tracker_at. rewrite (Hout dev Hr). exact H1.
Qed.

(** X8: [reset] on a context whose devices all have a tracker: every
    allocation of the context goes to the native [free_], in the order
    of [allocated_ptrs], so that the driver is left in the state reached
    by applying [free_] to the pointers one after the other; every
    device of the context ends with [total_mem_used] at zero, while its
    tracker keeps its capacity, its high-water mark and its allocation
    records; the list of allocations is empty afterwards and the flags
    are kept. *)
Theorem reset_releases_everything {driver : Type} (free_ : Z -> driver -> driver)
        (c : CHIPContext) (B : CHIPBackend) (drv : driver) :
  (forall p, p ∈ chip_devices c -> is_Some (tracker_at B p)) ->
  exists c' B',
    reset free_ c B drv
    = Ok (c', B', foldl (fun drv' ptr => free_ ptr drv') drv (allocated_ptrs c))
    /\ allocated_ptrs c' = [] /\ flags c' = flags c
    /\ chip_devices c' = chip_devices c
    /\ (forall p, p ∈ chip_devices c ->
          exists t, tracker_at B p = Some t
                    /\ tracker_at B' p = Some (with_used t 0 (max_mem_used t)))
    /\ (forall p, p ∉ chip_devices c ->
          Device.chip_devices B' !! p = Device.chip_devices B !! p).
Proof.
  intros Hall. unfold reset.
  destruct (release_reservations_spec (chip_devices c) B Hall)
    as (B' & -> & _ & Hout & Hin).
  simpl. eexists _, _. split; [reflexivity|]. simpl. auto.
Qed.

Lemma reset_releases_everything_witness :
  exists c' B',
    reset log_free_ both_devices two_devices (16384, [])
    = Ok (c', B', foldl (fun drv' ptr => log_free_ ptr drv') (16384, [])
                        (allocated_ptrs both_devices))
    /\ allocated_ptrs c' = [] /\ flags c' = flags both_devices
    /\ chip_devices c' = chip_devices both_devices
    /\ (forall p, p ∈ chip_devices both_devices ->
          exists t, tracker_at two_devices p = Some t
                    /\ tracker_at B' p = Some (with_used t 0 (max_mem_used t)))
    /\ (forall p, p ∉ chip_devices both_devices ->
          Device.chip_devices B' !! p = Device.chip_devices two_devices !! p).
Proof.
  apply (reset_releases_everything log_free_ both_devices two_devices (16384, [])).
  intros p Hp. unfold both_devices in Hp. simpl in Hp.
  apply elem_of_cons in Hp as [->|Hp]; [vm_compute; eauto|].
  apply elem_of_cons in Hp as [->|Hp]; [vm_compute; eauto|].
  apply elem_of_nil in Hp. contradiction.
Defined.

(** On the two devices with 30 and 50 bytes in use, [reset] leaves both
    at zero and frees the two allocations in order. *)
Example reset_two_devices :
  (fun r => (map (fun d => total_mem_used <$> allocation_tracker d)
                 (Device.chip_devices (snd (fst r))), snd (snd r)))
    <$> (match reset log_free_ both_devices two_devices (16384, []) with
         | Ok r => Some r | _ => None end)
  = Some ([Some 0; Some 0], [4096; 8192]).
Proof. vm_compute. reflexivity. Qed.

Lemma allocate_records_allocation_witness :
  exists B',
    allocate bump_allocate_ 1 30 8 Shared (one_device 20) (4096, [])
    = Ok (4096, B', (4126, []))
    /\ total_mem_used <$> active_tracker B' = Some (20 + 30)
    /\ findPointerInfo 4096 B' = Ok (hipSuccess, 4096, 30).
Proof.
  apply (allocate_records_allocation bump_allocate_ 1 30 8 Shared (one_device 20)
           (4096, []) 0%nat
           {| idx := 0; ctx := 1; hip_device_props := zero_props;
              allocation_tracker := Some (with_used (create 100 "gpu") 20 20) |}
           (with_used (create 100 "gpu") 20 20) 4096 (4126, [])
           eq_refl eq_refl eq_refl eq_refl).
  - apply one_device_well_formed. lia.
  - unfold is_size_t, size_max. lia.
  - simpl. lia.
  - reflexivity.
  - unfold nullptr. lia.
Defined.

Lemma allocate_then_free_restores_witness :
  exists B' B'',
    allocate bump_allocate_ 1 30 8 Shared (one_device 20) (4096, [])
    = Ok (4096, B', (4126, []))
    /\ free log_free_ 4096 B' (4126, [])
       = Ok (hipSuccess, B'', log_free_ 4096 (4126, []))
    /\ total_mem_used <$> active_tracker B'' = Some 20.
Proof.
  apply (allocate_then_free_restores bump_allocate_ log_free_ 1 30 8 Shared
           (one_device 20) (4096, []) 0%nat
           {| idx := 0; ctx := 1; hip_device_props := zero_props;
              allocation_tracker := Some (with_used (create 100 "gpu") 20 20) |}
           (with_used (create 100 "gpu") 20 20) 4096 (4126, [])
           eq_refl eq_refl eq_refl eq_refl).
  - apply one_device_well_formed. lia.
  - unfold is_size_t, size_max. lia.
  - simpl. lia.
  - reflexivity.
  - unfold nullptr. lia.
Defined.

Lemma free_unknown_pointer_throws_witness :
  free log_free_ 12345 one_allocation (4106, []) = Throw hipErrorTbd
  /\ forall q e B' drv',
       free log_free_ q one_allocation (4106, []) = Ok (e, B', drv') ->
       e = hipSuccess /\ drv' = log_free_ q (4106, [])
       /\ is_Some (dev_to_allocation_info recorded_tracker !! q).
Proof.
  apply (free_unknown_pointer_throws log_free_ 12345 one_allocation (4106, []) 0%nat
           recorded_device recorded_tracker eq_refl eq_refl eq_refl).
  vm_compute. reflexivity.
Defined.

Lemma failed_allocate_records_null_witness :
  exists B' drv',
    allocate failing_allocate_ 1 30 8 Shared (one_device 20) (4096, [])
    = Ok (nullptr, B', drv')
    /\ findPointerInfo nullptr B' = Ok (hipSuccess, nullptr, 30).
Proof.
  apply (failed_allocate_records_null failing_allocate_ 1 30 8 Shared (one_device 20)
           (4096, []) 0%nat
           {| idx := 0; ctx := 1; hip_device_props := zero_props;
              allocation_tracker := Some (with_used (create 100 "gpu") 20 20) |}
           (with_used (create 100 "gpu") 20 20)
           eq_refl eq_refl eq_refl eq_refl).
  - apply one_device_well_formed. lia.
  - unfold is_size_t, size_max. lia.
  - simpl. lia.
  - reflexivity.
Defined.

End ContextMoreProps.

(** ** Kernels of a module, by name *)

Module ModuleSymbolsProps.

Import DeviceVars ModuleSymbols.

Lemma find_first {A} (f : A -> bool) (l : list A) (x : A) :
  List.find f l = Some x ->
  exists l1 l2, l = l1 ++ x :: l2 /\ f x = true /\ Forall (fun y => f y = false) l1.
Proof.
  induction l as [|y l IH]; simpl; [discriminate|].
  destruct (f y) eqn:E.
  - intros H. inversion H; subst. exists [], l. repeat split; auto.
  - intros H. destruct (IH H) as (l1 & l2 & -> & Hx & Hall).
    exists (y :: l1), l2. repeat split; auto.
Qed.

Lemma find_none_iff {A} (f : A -> bool) (l : list A) :
  List.find f l = None <-> Forall (fun y => f y = false) l.
Proof.
  induction l as [|y l IH]; simpl.
  - split; auto.
  - destruct (f y) eqn:E.
    + split; [discriminate|]. intros H. inversion H; subst. congruence.
    + rewrite IH. split; [auto|]. intros H. inversion H; auto.
Qed.

Lemma find_app_first {A} (f : A -> bool) (l1 l2 : list A) :
  List.find f (l1 ++ l2)
  = match List.find f l1 with Some x => Some x | None => List.find f l2 end.
Proof.
  induction l1 as [|y l1 IH]; simpl; [reflexivity|].
  destruct (f y); [reflexivity|exact IH].
Qed.

(** X9: [getKernel] by name returns the first kernel of the module that
    has the name, and throws [hipErrorLaunchFailure] exactly when no
    kernel has it. *)
Theorem getKernel_first_by_name (name : string) (m : CHIPModule) :
  (forall k, getKernel name m = Ok k ->
     exists l1 l2,
       chip_kernels m = l1 ++ k :: l2 /\ host_f_name k = name
       /\ Forall (fun k' => host_f_name k' <> name) l1)
  /\ (getKernel name m = Throw hipErrorLaunchFailure
      <-> Forall (fun k => host_f_name k <> name) (chip_kernels m))
  /\ getKernel name m <> Fault.
Proof.
  unfold getKernel, DeviceVars.getKernel, CHIPERR_LOG_AND_THROW.
  destruct (List.find (fun k => String.eqb (host_f_name k) name) (chip_kernels m))
    as [k0|] eqn:E.
  - split; [|split; [|discriminate]].
    + intros k H. inversion H; subst k0.
      destruct (find_first _ _ _ E) as (l1 & l2 & Hl & Hk & Hall).
      exists l1, l2. split; [exact Hl|]. split; [apply String.eqb_eq; exact Hk|].
      eapply Forall_impl; [exact Hall|]. simpl. intros k'. apply String.eqb_neq.
    + split; [discriminate|]. intros Hall.
      apply find_first in E as (l1 & l2 & Hl & Hk & _).
      rewrite Hl in Hall. apply Forall_app in Hall as [_ Hall].
      inversion Hall as [|? ? Hne _]; subst. apply String.eqb_eq in Hk. contradiction.
  - split; [discriminate|]. split; [|discriminate].
    split; [|reflexivity]. intros _.
    apply find_none_iff in E. eapply Forall_impl; [exact E|].
    simpl. intros k'. apply String.eqb_neq.
Qed.

(** X10: After [addKernel] the new kernel's name is always found; a name
    that was found before still gives the same kernel (an earlier kernel
    hides a later one of the same name); any other name still throws. *)
Theorem addKernel_then_getKernel (kernel : CHIPKernel) (name : string) (m : CHIPModule) :
  getKernel name (addKernel kernel m)
  = match getKernel name m with
    | Ok k => Ok k
    | _ => if String.eqb (host_f_name kernel) name then Ok kernel
           else Throw hipErrorLaunchFailure
    end.
Proof.
  unfold getKernel, DeviceVars.getKernel, addKernel, CHIPERR_LOG_AND_THROW. simpl.
  rewrite find_app_first.
  destruct (List.find _ (chip_kernels m)); [reflexivity|]. simpl.
  destruct (String.eqb (host_f_name kernel) name); reflexivity.
Qed.

(** X11: [getGlobalVar] likewise: the first variable of that name, or
    [hipErrorLaunchFailure] when the module declares none. *)
Theorem getGlobalVar_first_by_name (var_name_ : string) (m : CHIPModule) :
  (forall v, getGlobalVar var_name_ m = Ok v ->
     exists l1 l2,
       chip_vars m = l1 ++ v :: l2 /\ Name v = var_name_
       /\ Forall (fun v' => Name v' <> var_name_) l1)
  /\ (getGlobalVar var_name_ m = Throw hipErrorLaunchFailure
      <-> Forall (fun v => Name v <> var_name_) (chip_vars m)).
Proof.
  unfold getGlobalVar, CHIPERR_LOG_AND_THROW.
  destruct (List.find (fun v => String.eqb (Name v) var_name_) (chip_vars m))
    as [v0|] eqn:E.
  - split.
    + intros v H. inversion H; subst v0.
      destruct (find_first _ _ _ E) as (l1 & l2 & Hl & Hk & Hall).
      exists l1, l2. split; [exact Hl|]. split; [apply String.eqb_eq; exact Hk|].
      eapply Forall_impl; [exact Hall|]. simpl. intros v'. apply String.eqb_neq.
    + split; [discriminate|]. intros Hall.
      apply find_first in E as (l1 & l2 & Hl & Hk & _).
      rewrite Hl in Hall. apply Forall_app in Hall as [_ Hall].
      inversion Hall as [|? ? Hne _]; subst. apply String.eqb_eq in Hk. contradiction.
  - split; [discriminate|].
    split; [|reflexivity]. intros _.
    apply find_none_iff in E. eapply Forall_impl; [exact E|].
    simpl. intros v'. apply String.eqb_neq.
Qed.

End ModuleSymbolsProps.

(** ** The device-variable life cycle: what it submits and leaves behind *)

Module LifecycleProps.

Import Device Context DeviceVars LifecycleTrace ContextMore.

Lemma getKernel_name name m K :
  DeviceVars.getKernel name m = Ok K -> host_f_name K = name.
Proof.
  unfold DeviceVars.getKernel.
  destruct (List.find _ (chip_kernels m)) as [k|] eqn:E; [|discriminate].
  intros H. inversion H; subst k. apply List.find_some in E as [_ E].
  apply String.eqb_eq. exact E.
Qed.

Lemma assert_Ok b u : assert b = Ok u -> b = true.
Proof. destruct b; [reflexivity|discriminate]. Qed.

Section Lifecycle.

Context {driver : Type}.
Variable allocate_ : Z -> Z -> CHIPMemoryType -> driver -> Z * driver.
Variable free_ : Z -> driver -> driver.
Variables ChipVarInfoPrefix ChipVarBindPrefix ChipVarInitPrefix : string.
Variable sizeof_CHIPVarInfo : Z.
Variable var_info : string -> Z * Z * Z.
Variable VarInfoBufH : Z.

Lemma mbind_Ok {A B} (m : M A) (k : A -> M B) (rt : runtime driver) b rt' :
  mbind m k rt = Ok (b, rt') ->
  exists a rt1, m rt = Ok (a, rt1) /\ k a rt1 = Ok (b, rt').
Proof.
  unfold mbind. destruct (m rt) as [[a rt1]| |]; try discriminate. eauto.
Qed.

Lemma lift_Ok {A} (r : result A) (rt : runtime driver) a rt' :
  lift r rt = Ok (a, rt') -> r = Ok a /\ rt' = rt.
Proof.
  unfold lift. destruct r; try discriminate. intros H. inversion H; auto.
Qed.

Lemma ret_Ok {A} (x : A) (rt : runtime driver) a rt' :
  ret x rt = Ok (a, rt') -> a = x /\ rt' = rt.
Proof. unfold ret. intros H. inversion H; auto. Qed.

Lemma submit_Ok o (rt : runtime driver) u rt' :
  submit o rt = Ok (u, rt') ->
  backend rt' = backend rt /\ drv rt' = drv rt
  /\ submitted rt' = submitted rt ++ [o].
Proof. unfold submit. intros H. inversion H; subst. simpl. auto. Qed.

Lemma ctx_allocate_Ok Ctx size alignment mem_type (rt : runtime driver) p rt' :
  ctx_allocate allocate_ Ctx size alignment mem_type rt = Ok (p, rt') ->
  submitted rt' = submitted rt.
Proof.
  unfold ctx_allocate.
  destruct (allocate _ _ _ _ _ _ _) as [[[q B] dr]| |]; try discriminate.
  intros H. inversion H; subst. reflexivity.
Qed.

Lemma free_Ok_driver ptr B (dr : driver) e B' dr' :
  free free_ ptr B dr = Ok (e, B', dr') -> e = hipSuccess /\ dr' = free_ ptr dr.
Proof.
  unfold free, bind.
  destruct (getActiveDevice B); try discriminate.
  destruct (deref B _); try discriminate.
  destruct (non_null _); try discriminate.
  destruct (Tracker.getByDevPtr _ _); try discriminate.
  intros H. inversion H; auto.
Qed.

Lemma ctx_free_Ok ptr (rt : runtime driver) e rt' :
  ctx_free free_ ptr rt = Ok (e, rt') ->
  submitted rt' = submitted rt /\ drv rt' = free_ ptr (drv rt).
Proof.
  unfold ctx_free.
  destruct (free free_ ptr (backend rt) (drv rt)) as [[[e0 B] dr]| |] eqn:E;
    try discriminate.
  intros H. inversion H; subst. simpl.
  apply free_Ok_driver in E as [_ ->]. auto.
Qed.

Lemma queueKernel_Ok Q K Args (rt : runtime driver) u rt' :
  queueKernel Q K Args rt = Ok (u, rt') ->
  backend rt' = backend rt /\ drv rt' = drv rt
  /\ submitted rt' = submitted rt ++ [Launch (host_f_name K) Args].
Proof.
  unfold queueKernel. intros H.
  apply mbind_Ok in H as (a & rt1 & H1 & H2).
  apply lift_Ok in H1 as [_ ->]. apply submit_Ok in H2. exact H2.
Qed.

Lemma info_kernel_Ok Q m Var buf (rt : runtime driver) u rt' :
  queueVariableInfoShadowKernel ChipVarInfoPrefix Q m Var buf rt = Ok (u, rt') ->
  backend rt' = backend rt /\ drv rt' = drv rt
  /\ submitted rt' = submitted rt ++ [Launch (ChipVarInfoPrefix ++ Name Var) [buf]].
Proof.
  unfold queueVariableInfoShadowKernel. intros H.
  apply mbind_Ok in H as (a & rt1 & H1 & H).
  apply lift_Ok in H1 as [_ ->].
  apply mbind_Ok in H as (K & rt2 & H2 & H).
  apply lift_Ok in H2 as [HK ->]. apply getKernel_name in HK.
  apply queueKernel_Ok in H. rewrite HK in H. exact H.
Qed.

Lemma bind_kernel_Ok Q m Var (rt : runtime driver) u rt' :
  queueVariableBindShadowKernel ChipVarBindPrefix Q m Var rt = Ok (u, rt') ->
  DevAddr Var <> 0
  /\ backend rt' = backend rt /\ drv rt' = drv rt
  /\ submitted rt' = submitted rt
                     ++ [Launch (ChipVarBindPrefix ++ Name Var) [DevAddr Var]].
Proof.
  unfold queueVariableBindShadowKernel. intros H.
  apply mbind_Ok in H as (a & rt1 & H1 & H).
  apply lift_Ok in H1 as [Ha ->]. apply assert_Ok in Ha.
  apply mbind_Ok in H as (K & rt2 & H2 & H).
  apply lift_Ok in H2 as [HK ->]. apply getKernel_name in HK.
  apply queueKernel_Ok in H. rewrite HK in H.
  split; [|exact H]. apply negb_true_iff in Ha. apply Z.eqb_neq. exact Ha.
Qed.

Lemma init_kernel_Ok Q m Var (rt : runtime driver) u rt' :
  queueVariableInitShadowKernel ChipVarInitPrefix Q m Var rt = Ok (u, rt') ->
  backend rt' = backend rt /\ drv rt' = drv rt
  /\ submitted rt' = submitted rt ++ [Launch (ChipVarInitPrefix ++ Name Var) []].
Proof.
  unfold queueVariableInitShadowKernel. intros H.
  apply mbind_Ok in H as (K & rt2 & H2 & H).
  apply lift_Ok in H2 as [HK ->]. apply getKernel_name in HK.
  apply queueKernel_Ok in H. rewrite HK in H. exact H.
Qed.

Lemma queue_info_kernels_Ok Q m buf vars : forall I (rt : runtime driver) u rt',
  queue_info_kernels ChipVarInfoPrefix sizeof_CHIPVarInfo Q m buf I vars rt
  = Ok (u, rt') ->
  submitted rt' = submitted rt
                  ++ info_launches ChipVarInfoPrefix sizeof_CHIPVarInfo buf I vars.
Proof.
  induction vars as [|Var rest IH]; intros I rt u rt' H; simpl in *.
  - apply ret_Ok in H as [_ ->]. rewrite app_nil_r. reflexivity.
  - apply mbind_Ok in H as (a & rt1 & H1 & H).
    apply info_kernel_Ok in H1 as (_ & _ & H1).
    apply IH in H. rewrite H, H1, <- app_assoc. reflexivity.
Qed.

Lemma allocate_storage_Ok Q Ctx m vars : forall (rt : runtime driver) vars' rt',
  allocate_storage allocate_ ChipVarBindPrefix var_info Q Ctx m vars rt
  = Ok (vars', rt') ->
  Forall2 (allocated_as var_info) vars vars'
  /\ submitted rt' = submitted rt ++ bind_launches ChipVarBindPrefix vars'.
Proof.
  induction vars as [|Var rest IH]; intros rt vars' rt' H; simpl in *.
  - apply ret_Ok in H as [-> ->]. split; [constructor|].
    unfold bind_launches. simpl. rewrite app_nil_r. reflexivity.
  - destruct (var_info (Name Var)) as [[Size_ Alignment] HasInit] eqn:Ei.
    apply mbind_Ok in H as (a1 & rt1 & H1 & H). apply lift_Ok in H1 as [_ ->].
    apply mbind_Ok in H as (a2 & rt2 & H2 & H). apply lift_Ok in H2 as [_ ->].
    apply mbind_Ok in H as (addr & rt3 & H3 & H). apply ctx_allocate_Ok in H3.
    apply mbind_Ok in H as (a4 & rt4 & H4 & H). apply lift_Ok in H4 as [Hsz ->].
    apply assert_Ok in Hsz. simpl in Hsz. apply Z.eqb_eq in Hsz.
    apply mbind_Ok in H as (a5 & rt5 & H5 & H).
    apply bind_kernel_Ok in H5 as (Hnn & _ & _ & H5). simpl in Hnn, H5.
    apply mbind_Ok in H as (rest' & rt6 & H6 & H).
    apply ret_Ok in H as [-> ->].
    apply IH in H6 as [Hall H6]. split.
    + constructor; [|exact Hall]. unfold allocated_as. rewrite Ei. simpl. auto.
    + rewrite H6, H5, H3. unfold bind_launches. simpl.
      rewrite <- app_assoc. reflexivity.
Qed.

Lemma queue_init_kernels_Ok Q m vars : forall b (rt : runtime driver) b' rt',
  queue_init_kernels ChipVarInitPrefix Q m vars b rt = Ok (b', rt') ->
  b' = b || existsb HasInitializer vars
  /\ backend rt' = backend rt /\ drv rt' = drv rt
  /\ submitted rt' = submitted rt ++ init_launches ChipVarInitPrefix vars.
Proof.
  induction vars as [|Var rest IH]; intros b rt b' rt' H; simpl in *.
  - apply ret_Ok in H as [-> ->]. unfold init_launches. simpl.
    rewrite orb_false_r, app_nil_r. auto.
  - unfold init_launches. simpl. destruct (HasInitializer Var); simpl in *.
    + apply mbind_Ok in H as (a & rt1 & H1 & H).
      apply init_kernel_Ok in H1 as (HB & HD & H1).
      apply IH in H as (-> & HB' & HD' & H). rewrite orb_true_r.
      split; [reflexivity|]. split; [congruence|]. split; [congruence|].
      rewrite H, H1, <- app_assoc. reflexivity.
    + apply IH in H. exact H.
Qed.

Lemma free_storage_Ok vars : forall (rt : runtime driver) vars' rt',
  free_storage free_ vars rt = Ok (vars', rt') ->
  vars' = map (setDevAddr 0) vars
  /\ submitted rt' = submitted rt
  /\ drv rt' = free_all free_ (map DevAddr vars) (drv rt).
Proof.
  induction vars as [|Var rest IH]; intros rt vars' rt' H; simpl in *.
  - apply ret_Ok in H as [-> ->]. auto.
  - apply mbind_Ok in H as (e & rt1 & H1 & H). apply ctx_free_Ok in H1 as [Hs Hd].
    apply mbind_Ok in H as (rest' & rt2 & H2 & H). apply ret_Ok in H as [-> ->].
    apply IH in H2 as (-> & Hs' & Hd').
    split; [reflexivity|]. split; [congruence|].
    rewrite Hd', Hd. reflexivity.
Qed.

Let allocateNoLock :=
  allocateDeviceVariablesNoLock allocate_ ChipVarInfoPrefix ChipVarBindPrefix
    sizeof_CHIPVarInfo var_info VarInfoBufH.

Let initializeNoLock :=
  initializeDeviceVariablesNoLock allocate_ ChipVarInfoPrefix ChipVarBindPrefix
    ChipVarInitPrefix sizeof_CHIPVarInfo var_info VarInfoBufH.

Lemma with_flags_same m :
  with_flags m (chip_vars m) (DeviceVariablesAllocated m)
             (DeviceVariablesInitialized m) = m.
Proof. destruct m. reflexivity. Qed.

(** The allocation on a module that is already marked allocated. *)
Lemma allocate_when_allocated Device Queue m (rt : runtime driver) :
  DeviceVariablesAllocated m = true ->
  allocateNoLock Device Queue m rt = Ok ((hipSuccess, m), rt).
Proof.
  intros Ha. subst allocateNoLock. unfold allocateDeviceVariablesNoLock.
  rewrite Ha. simpl. unfold ret. rewrite <- Ha at 1. rewrite with_flags_same.
  reflexivity.
Qed.

(** The allocation that has work to do, taken apart. *)
Lemma allocate_Ok_inv Device Queue m (rt : runtime driver) e m' rt' :
  DeviceVariablesAllocated m = false -> chip_vars m <> [] ->
  allocateNoLock Device Queue m rt = Ok ((e, m'), rt') ->
  exists VarInfoBufD vars',
    VarInfoBufD <> 0
    /\ e = hipSuccess
    /\ m' = with_flags m vars' true (DeviceVariablesInitialized m)
    /\ Forall2 (allocated_as var_info) (chip_vars m) vars'
    /\ submitted rt'
       = submitted rt
         ++ info_launches ChipVarInfoPrefix sizeof_CHIPVarInfo VarInfoBufD 0 (chip_vars m)
         ++ [ MemCopyAsync VarInfoBufH VarInfoBufD
                (wrap64 (sizeof_CHIPVarInfo * Z.of_nat (length (chip_vars m))));
              Finish ]
         ++ bind_launches ChipVarBindPrefix vars'
         ++ [Finish].
Proof.
  intros Ha Hv H. subst allocateNoLock. unfold allocateDeviceVariablesNoLock in H.
  rewrite Ha in H. simpl in H.
  replace (bool_decide (chip_vars m = [])) with false in H
    by (symmetry; apply bool_decide_eq_false_2; exact Hv).
  apply mbind_Ok in H as (Ctx & rt1 & H1 & H).
  assert (Hs1 : submitted rt1 = submitted rt).
  { unfold getContext in H1. destruct (deref _ _); try discriminate.
    inversion H1; subst. reflexivity. }
  apply mbind_Ok in H as (buf & rt2 & H2 & H). apply ctx_allocate_Ok in H2.
  apply mbind_Ok in H as (a3 & rt3 & H3 & H). apply lift_Ok in H3 as [Hnn ->].
  apply assert_Ok in Hnn. apply negb_true_iff, Z.eqb_neq in Hnn.
  apply mbind_Ok in H as (a4 & rt4 & H4 & H). apply queue_info_kernels_Ok in H4.
  apply mbind_Ok in H as (a5 & rt5 & H5 & H). apply submit_Ok in H5 as (_ & _ & H5).
  apply mbind_Ok in H as (a6 & rt6 & H6 & H). apply submit_Ok in H6 as (_ & _ & H6).
  apply mbind_Ok in H as (vars' & rt7 & H7 & H).
  apply (allocate_storage_Ok _ _ _ _ _ _ _) in H7 as [Hall H7].
  apply mbind_Ok in H as (a8 & rt8 & H8 & H). apply submit_Ok in H8 as (_ & _ & H8).
  apply ret_Ok in H as [H ->]. inversion H; subst e m'. simpl in *.
  exists buf, vars'. split; [exact Hnn|]. split; [reflexivity|].
  split; [reflexivity|]. split; [exact Hall|].
  rewrite H8, H7, H6, H5, H4, H2, Hs1. rewrite <- !app_assoc. reflexivity.
Qed.

(** An allocation that returns has returned [hipSuccess] and left the
    module marked allocated. *)
Lemma allocate_Ok_flags Device Queue m (rt : runtime driver) e m' rt' :
  allocateNoLock Device Queue m rt = Ok ((e, m'), rt') ->
  e = hipSuccess /\ DeviceVariablesAllocated m' = true.
Proof.
  intros H. destruct (DeviceVariablesAllocated m) eqn:Ha.
  - rewrite (allocate_when_allocated _ _ _ _ Ha) in H. inversion H; subst. auto.
  - destruct (decide (chip_vars m = [])) as [Hv|Hv].
    + subst allocateNoLock. unfold allocateDeviceVariablesNoLock in H.
      rewrite Ha, Hv in H. simpl in H. inversion H; subst. auto.
    + destruct (allocate_Ok_inv _ _ _ _ _ _ _ Ha Hv H)
        as (buf & vars' & _ & -> & -> & _). auto.
Qed.

(** X12: Allocation happens once: a call that returns has returned
    [hipSuccess] and left the module marked allocated, and a further call
    on the result returns [hipSuccess] at once, changing neither the
    module nor the runtime: nothing is allocated or submitted a second
    time. *)
Theorem allocate_device_variables_once Device Queue m (rt : runtime driver) e m' rt' :
  allocateNoLock Device Queue m rt = Ok ((e, m'), rt') ->
  e = hipSuccess
  /\ DeviceVariablesAllocated m' = true
  /\ forall Device' Queue',
       allocateNoLock Device' Queue' m' rt' = Ok ((hipSuccess, m'), rt').
Proof.
  intros H. destruct (allocate_Ok_flags _ _ _ _ _ _ _ H) as [-> Ha'].
  split; [reflexivity|]. split; [exact Ha'|].
  intros Device' Queue'. apply allocate_when_allocated. exact Ha'.
Qed.

(** X13: An allocation that has work to do gives every variable of the
    module a non-null device address, in the order of the module; each
    variable keeps its name and its registered size, which the info
    kernel's reported size matched, and takes the reported initialiser
    flag.  The kernels and the initialised flag of the module are kept. *)
Theorem allocate_gives_every_variable_storage
        Device Queue m (rt : runtime driver) e m' rt' :
  DeviceVariablesAllocated m = false -> chip_vars m <> [] ->
  allocateNoLock Device Queue m rt = Ok ((e, m'), rt') ->
  Forall2 (allocated_as var_info) (chip_vars m) (chip_vars m')
  /\ chip_kernels m' = chip_kernels m
  /\ DeviceVariablesInitialized m' = DeviceVariablesInitialized m.
Proof.
  intros Ha Hv H.
  destruct (allocate_Ok_inv _ _ _ _ _ _ _ Ha Hv H)
    as (buf & vars' & _ & _ & -> & Hall & _).
  simpl. auto.
Qed.

(** X14: What such an allocation submits, in order: one info kernel per
    variable, the [I]-th on slot [I] of a non-null device buffer; the
    copy of that buffer to the host and a blocking synchronisation; one
    bind kernel per variable with the variable's new address; a second
    blocking synchronisation.  Nothing else is submitted. *)
Theorem allocate_submits_query_then_bind
        Device Queue m (rt : runtime driver) e m' rt' :
  DeviceVariablesAllocated m = false -> chip_vars m <> [] ->
  allocateNoLock Device Queue m rt = Ok ((e, m'), rt') ->
  exists VarInfoBufD,
    VarInfoBufD <> 0
    /\ submitted rt'
       = submitted rt
         ++ info_launches ChipVarInfoPrefix sizeof_CHIPVarInfo VarInfoBufD 0 (chip_vars m)
         ++ [ MemCopyAsync VarInfoBufH VarInfoBufD
                (wrap64 (sizeof_CHIPVarInfo * Z.of_nat (length (chip_vars m))));
              Finish ]
         ++ bind_launches ChipVarBindPrefix (chip_vars m')
         ++ [Finish].
Proof.
  intros Ha Hv H.
  destruct (allocate_Ok_inv _ _ _ _ _ _ _ Ha Hv H)
    as (buf & vars' & Hnn & _ & -> & _ & Hs).
  exists buf. split; [exact Hnn|]. exact Hs.
Qed.

(** The initialisation after the allocation step, taken apart. *)
Lemma initialize_allocated_inv Device Queue m (rt : runtime driver) m' rt' :
  DeviceVariablesAllocated m = true ->
  initializeNoLock Device Queue m rt = Ok (m', rt') ->
  DeviceVariablesAllocated m' = true
  /\ DeviceVariablesInitialized m' = true
  /\ chip_vars m' = chip_vars m
  /\ backend rt' = backend rt /\ drv rt' = drv rt
  /\ submitted rt'
     = submitted rt
       ++ (if DeviceVariablesInitialized m then []
           else init_launches ChipVarInitPrefix (chip_vars m)
                ++ (if existsb HasInitializer (chip_vars m) then [Finish] else [])).
Proof.
  intros Ha H. subst initializeNoLock. unfold initializeDeviceVariablesNoLock in H.
  apply mbind_Ok in H as (r & rt1 & H1 & H).
  fold allocateNoLock in H1.
  rewrite (allocate_when_allocated _ _ _ _ Ha) in H1. inversion H1; subst r rt1.
  simpl in H. clear H1.
  destruct (DeviceVariablesInitialized m) eqn:Hi; simpl in H.
  - rewrite Ha in H. simpl in H. unfold mbind, lift, ret in H. simpl in H.
    inversion H; subst. simpl. rewrite app_nil_r. repeat split.
  - destruct (bool_decide (chip_vars m = [])) eqn:Hv.
    + apply bool_decide_eq_true_1 in Hv.
      rewrite Ha in H. unfold mbind, lift, ret in H. simpl in H.
      inversion H; subst. simpl. rewrite Hv. simpl. rewrite app_nil_r.
      repeat split.
    + apply mbind_Ok in H as (b & rt2 & H2 & H). simpl in H2.
      apply queue_init_kernels_Ok in H2 as (-> & HB & HD & HS). simpl in H.
      apply mbind_Ok in H as (u & rt3 & H3 & H). apply ret_Ok in H as [-> ->].
      simpl. split; [exact Ha|]. split; [reflexivity|]. split; [reflexivity|].
      destruct (existsb HasInitializer (chip_vars m)).
      * apply submit_Ok in H3 as (HB' & HD' & HS').
        split; [congruence|]. split; [congruence|].
        rewrite HS', HS, <- app_assoc. reflexivity.
      * apply ret_Ok in H3 as [_ ->].
        split; [exact HB|]. split; [exact HD|].
        rewrite HS, app_nil_r. reflexivity.
Qed.

(** X15: Initialisation of a module whose storage is allocated: nothing is
    allocated (the backend and the driver are as they were) and the
    variables are untouched; if the module was already initialised
    nothing is submitted; otherwise one init kernel is submitted for
    each variable that has an initialiser, in order, followed by one
    blocking synchronisation exactly when there was such a kernel.  The
    module ends marked allocated and initialised. *)
Theorem initialize_runs_initialisers_only
        Device Queue m (rt : runtime driver) m' rt' :
  DeviceVariablesAllocated m = true ->
  initializeNoLock Device Queue m rt = Ok (m', rt') ->
  DeviceVariablesAllocated m' = true
  /\ DeviceVariablesInitialized m' = true
  /\ chip_vars m' = chip_vars m
  /\ backend rt' = backend rt /\ drv rt' = drv rt
  /\ submitted rt'
     = submitted rt
       ++ (if DeviceVariablesInitialized m then []
           else init_launches ChipVarInitPrefix (chip_vars m)
                ++ (if existsb HasInitializer (chip_vars m) then [Finish] else [])).
Proof. apply initialize_allocated_inv. Qed.

(** An initialisation is an allocation followed by the initialisation
    of the allocated module. *)
Lemma initialize_Ok_split Device Queue m (rt : runtime driver) m' rt' :
  initializeNoLock Device Queue m rt = Ok (m', rt') ->
  exists m1 rt1,
    allocateNoLock Device Queue m rt = Ok ((hipSuccess, m1), rt1)
    /\ DeviceVariablesAllocated m1 = true
    /\ initializeNoLock Device Queue m1 rt1 = Ok (m', rt').
Proof.
  intros H. subst initializeNoLock. unfold initializeDeviceVariablesNoLock in H.
  apply mbind_Ok in H as ([e m1] & rt1 & H1 & H).
  fold allocateNoLock in H1.
  destruct (allocate_Ok_flags _ _ _ _ _ _ _ H1) as [-> Ha1].
  exists m1, rt1. split; [exact H1|]. split; [exact Ha1|].
  unfold initializeDeviceVariablesNoLock, mbind at 1.
  fold allocateNoLock. rewrite (allocate_when_allocated _ _ _ _ Ha1).
  exact H.
Qed.

(** X16: A full initialisation, from any state of the module: when it
    returns, the module is marked both allocated and initialised, and all
    of its variables have a non-null device address unless it declares
    none. *)
Theorem initialize_marks_allocated_and_initialized
        Device Queue m (rt : runtime driver) m' rt' :
  initializeNoLock Device Queue m rt = Ok (m', rt') ->
  DeviceVariablesAllocated m' = true /\ DeviceVariablesInitialized m' = true
  /\ (DeviceVariablesAllocated m = false ->
      Forall (fun Var => DevAddr Var <> 0) (chip_vars m')).
Proof.
  intros H.
  destruct (initialize_Ok_split _ _ _ _ _ _ H) as (m1 & rt1 & H1 & Ha1 & H2).
  destruct (initialize_allocated_inv _ _ _ _ _ _ Ha1 H2) as (Ha & Hi & Hv & _).
  split; [exact Ha|]. split; [exact Hi|].
  intros Hna. rewrite Hv.
  destruct (decide (chip_vars m = [])) as [He|Hne].
  - subst allocateNoLock. unfold allocateDeviceVariablesNoLock in H1.
    rewrite Hna, He in H1. simpl in H1. inversion H1; subst. simpl. constructor.
  - destruct (allocate_Ok_inv _ _ _ _ _ _ _ Hna Hne H1)
      as (buf & vars' & _ & _ & -> & Hall & _).
    simpl. clear -Hall. induction Hall as [|v v' l l' Hvv _ IH]; constructor; auto.
    destruct Hvv as (_ & _ & _ & Hnn & _). exact Hnn.
Qed.


(** X18: Invalidation keeps the storage: the module stays allocated with its
    variables as they are, and the next initialisation runs the
    initialisers again without allocating anything. *)
Theorem invalidate_then_initialize Device Queue m (rt : runtime driver) m' rt' :
  DeviceVariablesAllocated m = true ->
  initializeNoLock Device Queue (invalidateDeviceVariablesNoLock m) rt = Ok (m', rt') ->
  chip_vars m' = chip_vars m
  /\ DeviceVariablesInitialized m' = true
  /\ backend rt' = backend rt /\ drv rt' = drv rt
  /\ submitted rt'
     = submitted rt
       ++ init_launches ChipVarInitPrefix (chip_vars m)
       ++ (if existsb HasInitializer (chip_vars m) then [Finish] else []).
Proof.
  intros Ha H.
  apply initialize_allocated_inv in H as (_ & Hi & Hv & HB & HD & HS);
    [|exact Ha].
  simpl in *. repeat split; assumption.
Qed.

End Lifecycle.

(** The two-variable module on the bump allocator: the info buffer is
    at 4096, [x] at 4144 and [y] at 4148. *)
Example two_variables_allocated :
  (fun r => (map DevAddr (chip_vars (snd (fst r))), submitted (snd r)))
    <$> (match run_allocate 0%nat 1 two_var_module idle_runtime with
         | Ok r => Some r | _ => None end)
  = Some ([4144; 4148],
          [ Launch "__chip_var_info_x" [4096];
            Launch "__chip_var_info_y" [4120];
            MemCopyAsync 65536 4096 48;
            Finish;
            Launch "__chip_var_bind_x" [4144];
            Launch "__chip_var_bind_y" [4148];
            Finish ]).
Proof. vm_compute. reflexivity. Qed.

Lemma allocate_device_variables_once_witness :
  exists m' rt',
    run_allocate 0%nat 1 two_var_module idle_runtime = Ok ((hipSuccess, m'), rt')
    /\ (hipSuccess = hipSuccess
        /\ DeviceVariablesAllocated m' = true
        /\ forall Device' Queue',
             run_allocate Device' Queue' m' rt' = Ok ((hipSuccess, m'), rt')).
Proof.
  eexists _, _. split; [vm_compute; reflexivity|].
  eapply (allocate_device_variables_once bump_allocate_ "__chip_var_info_"
           "__chip_var_bind_" 24 two_var_info 65536 0%nat 1 two_var_module
           idle_runtime).
  vm_compute. reflexivity.
Defined.

Lemma allocate_gives_every_variable_storage_witness :
  exists m' rt',
    run_allocate 0%nat 1 two_var_module idle_runtime = Ok ((hipSuccess, m'), rt')
    /\ (Forall2 (allocated_as two_var_info) (chip_vars two_var_module) (chip_vars m')
        /\ chip_kernels m' = chip_kernels two_var_module
        /\ DeviceVariablesInitialized m'
           = DeviceVariablesInitialized two_var_module).
Proof.
  eexists _, _. split; [vm_compute; reflexivity|].
  eapply (allocate_gives_every_variable_storage bump_allocate_ "__chip_var_info_"
            "__chip_var_bind_" 24 two_var_info 65536 0%nat 1 two_var_module
            idle_runtime hipSuccess).
  - reflexivity.
  - discriminate.
  - vm_compute. reflexivity.
Defined.

Lemma allocate_submits_query_then_bind_witness :
  exists m' rt',
    run_allocate 0%nat 1 two_var_module idle_runtime = Ok ((hipSuccess, m'), rt')
    /\ exists VarInfoBufD,
         VarInfoBufD <> 0
         /\ submitted rt'
            = submitted idle_runtime
              ++ info_launches "__chip_var_info_" 24 VarInfoBufD 0
                   (chip_vars two_var_module)
              ++ [ MemCopyAsync 65536 VarInfoBufD
                     (wrap64 (24 * Z.of_nat (length (chip_vars two_var_module))));
                   Finish ]
              ++ bind_launches "__chip_var_bind_" (chip_vars m')
              ++ [Finish].
Proof.
  eexists _, _. split; [vm_compute; reflexivity|].
  eapply (allocate_submits_query_then_bind bump_allocate_ "__chip_var_info_"
            "__chip_var_bind_" 24 two_var_info 65536 0%nat 1 two_var_module
            idle_runtime hipSuccess).
  - reflexivity.
  - discriminate.
  - vm_compute. reflexivity.
Defined.

Lemma initialize_runs_initialisers_only_witness :
  exists m1 rt1 m' rt',
    run_allocate 0%nat 1 two_var_module idle_runtime = Ok ((hipSuccess, m1), rt1)
    /\ run_initialize 0%nat 1 m1 rt1 = Ok (m', rt')
    /\ (DeviceVariablesAllocated m' = true
        /\ DeviceVariablesInitialized m' = true
        /\ chip_vars m' = chip_vars m1
        /\ backend rt' = backend rt1 /\ drv rt' = drv rt1
        /\ submitted rt'
           = submitted rt1
             ++ (if DeviceVariablesInitialized m1 then []
                 else init_launches "__chip_var_init_" (chip_vars m1)
                      ++ (if existsb HasInitializer (chip_vars m1)
                          then [Finish] else []))).
Proof.
  eexists _, _, _, _. split; [vm_compute; reflexivity|].
  split; [vm_compute; reflexivity|].
  eapply (initialize_runs_initialisers_only bump_allocate_ "__chip_var_info_"
           "__chip_var_bind_" "__chip_var_init_" 24 two_var_info 65536 0%nat 1).
  - reflexivity.
  - vm_compute. reflexivity.
Defined.

(** Only [x] has an initialiser: its init kernel and one
    synchronisation follow the allocation. *)
Example two_variables_initialized :
  (fun r => drop 7 (submitted (snd r)))
    <$> (match run_initialize 0%nat 1 two_var_module idle_runtime with
         | Ok r => Some r | _ => None end)
  = Some [ Launch "__chip_var_init_x" []; Finish ].
Proof. vm_compute. reflexivity. Qed.

Lemma initialize_marks_allocated_and_initialized_witness :
  exists m' rt',
    run_initialize 0%nat 1 two_var_module idle_runtime = Ok (m', rt')
    /\ (DeviceVariablesAllocated m' = true /\ DeviceVariablesInitialized m' = true
        /\ (DeviceVariablesAllocated two_var_module = false ->
            Forall (fun Var => DevAddr Var <> 0) (chip_vars m'))).
Proof.
  eexists _, _. split; [vm_compute; reflexivity|].
  eapply (initialize_marks_allocated_and_initialized bump_allocate_ "__chip_var_info_"
           "__chip_var_bind_" "__chip_var_init_" 24 two_var_info 65536 0%nat 1
           two_var_module idle_runtime).
  vm_compute. reflexivity.
Defined.


(** The two addresses reach the native [free_] in the module's order. *)
Example two_variables_deallocated :
  (match run_allocate 0%nat 1 two_var_module idle_runtime with
   | Ok (r, rt1) =>
       match run_deallocate (snd r) rt1 with
       | Ok (m', rt') => Some (map DevAddr (chip_vars m'), snd (drv rt'))
       | _ => None
       end
   | _ => None
   end)
  = Some ([0; 0], [4144; 4148]).
Proof. vm_compute. reflexivity. Qed.

Lemma invalidate_then_initialize_witness :
  exists m1 rt1 m' rt',
    run_initialize 0%nat 1 two_var_module idle_runtime = Ok (m1, rt1)
    /\ run_initialize 0%nat 1 (invalidateDeviceVariablesNoLock m1) rt1 = Ok (m', rt')
    /\ (chip_vars m' = chip_vars m1
        /\ DeviceVariablesInitialized m' = true
        /\ backend rt' = backend rt1 /\ drv rt' = drv rt1
        /\ submitted rt'
           = submitted rt1
             ++ init_launches "__chip_var_init_" (chip_vars m1)
             ++ (if existsb HasInitializer (chip_vars m1) then [Finish] else [])).
Proof.
  eexists _, _, _, _. split; [vm_compute; reflexivity|].
  split; [vm_compute; reflexivity|].
  eapply (invalidate_then_initialize bump_allocate_ "__chip_var_info_"
           "__chip_var_bind_" "__chip_var_init_" 24 two_var_info 65536 0%nat 1).
  - reflexivity.
  - vm_compute. reflexivity.
Defined.

End LifecycleProps.

(** ** The argument buffer: growth, overwriting, the offset table *)

Module ExecItemMoreProps.

Import ExecItem ExecItemProps.

(** The buffer [setArg] copies into. *)
Lemma setArg_unfold (c : arg_call) (ei : CHIPExecItem) :
  call_ok c ->
  let data :=
    if call_offset c + call_size c >? Z.of_nat (length (arg_data ei))
    then resize (Z.to_nat (call_offset c + call_size c + 1024)) (arg_data ei)
    else arg_data ei in
  setArg (call_arg c) (call_size c) (call_offset c) ei
  = Ok {| shared_mem := shared_mem ei; chip_queue := chip_queue ei;
          arg_data := memcpy data (Z.to_nat (call_offset c)) (call_arg c)
                             (Z.to_nat (call_size c));
          offset_sizes := offset_sizes ei ++ [(call_offset c, call_size c)] |}
  /\ (Z.to_nat (call_offset c) + Z.to_nat (call_size c) <= length data)%nat.
Proof.
  destruct c as [arg size offset]. unfold call_ok. simpl.
  intros (Ho & Hs & Hsmall & Hlen).
  assert (Hmax := size_max_pos).
  unfold setArg.
  rewrite (wrap64_small (offset + size)) by (unfold is_size_t; lia).
  rewrite (wrap64_small (offset + size + 1024)) by (unfold is_size_t; lia).
  set (data := if offset + size >? Z.of_nat (length (arg_data ei))
               then resize (Z.to_nat (offset + size + 1024)) (arg_data ei)
               else arg_data ei).
  assert (Hfit : offset + size <= Z.of_nat (length data)).
  { subst data.
    destruct (Z.gtb_spec (offset + size) (Z.of_nat (length (arg_data ei))));
      [rewrite length_resize|]; lia. }
  replace (offset + size <=? Z.of_nat (length data)) with true
    by (symmetry; apply Z.leb_le; lia).
  replace (size <=? Z.of_nat (length arg)) with true
    by (symmetry; apply Z.leb_le; lia).
  simpl. split; [reflexivity|lia].
Qed.

(** X19: [setArg] is a plain overwrite: whatever the buffer held, afterwards
    the argument's bytes are read back at its offset, so of two calls
    on the same range the later one is what is read; the bytes of the
    old buffer outside the written range are kept; the launch
    parameters are untouched. *)
Theorem setArg_overwrites (c : arg_call) (ei : CHIPExecItem) :
  call_ok c ->
  exists ei',
    setArg (call_arg c) (call_size c) (call_offset c) ei = Ok ei'
    /\ bytes_at (call_offset c) (call_size c) (getArgData ei') = call_arg c
    /\ (forall i, (i < length (arg_data ei))%nat ->
          ~ (call_offset c <= Z.of_nat i < call_offset c + call_size c) ->
          getArgData ei' !! i = getArgData ei !! i)
    /\ shared_mem ei' = shared_mem ei /\ chip_queue ei' = chip_queue ei.
Proof.
  intros Hok. destruct (setArg_spec c ei Hok) as (ei' & Hrun & _ & _ & Hplace & _).
  destruct (setArg_unfold c ei Hok) as [Hun Hd].
  exists ei'. split; [exact Hrun|]. split; [exact Hplace|].
  rewrite Hrun in Hun. inversion Hun; subst ei'. simpl. unfold getArgData. simpl.
  split; [|auto].
  intros i Hi Hout. destruct Hok as (Ho & Hs & _ & Hlen).
  rewrite memcpy_lookup by lia.
  destruct (decide _) as [Hin|_]; [lia|].
  destruct (call_offset c + call_size c >? Z.of_nat (length (arg_data ei))) eqn:E;
    [|reflexivity].
  apply resize_lookup_lt; [|exact Hi].
  apply Z.gtb_lt in E. lia.
Qed.

Lemma setArg_overwrites_witness :
  let c := {| call_arg := [Byte.x0a; Byte.x0b]; call_size := 2; call_offset := 1 |} in
  let ei := {| shared_mem := 0; chip_queue := 1;
               arg_data := [Byte.x01; Byte.x02; Byte.x03; Byte.x04];
               offset_sizes := [(0, 4)] |} in
  exists ei',
    setArg (call_arg c) (call_size c) (call_offset c) ei = Ok ei'
    /\ bytes_at (call_offset c) (call_size c) (getArgData ei') = call_arg c
    /\ (forall i, (i < length (arg_data ei))%nat ->
          ~ (call_offset c <= Z.of_nat i < call_offset c + call_size c) ->
          getArgData ei' !! i = getArgData ei !! i)
    /\ shared_mem ei' = shared_mem ei /\ chip_queue ei' = chip_queue ei.
Proof.
  intros c ei. apply (setArg_overwrites c ei).
  unfold call_ok, size_max. simpl. lia.
Defined.

(** A write inside the buffer replaces two bytes and keeps the rest. *)
Example setArg_in_the_middle :
  (getArgData <$>
     match setArg [Byte.x0a; Byte.x0b] 2 1
                  {| shared_mem := 0; chip_queue := 1;
                     arg_data := [Byte.x01; Byte.x02; Byte.x03; Byte.x04];
                     offset_sizes := [] |} with
     | Ok ei => Some ei | _ => None end)
  = Some [Byte.x01; Byte.x0a; Byte.x0b; Byte.x04].
Proof. reflexivity. Qed.

(** X20: The buffer grows only when the argument does not fit, and then to
    the argument's end plus 1024 spare bytes; it never shrinks, and the
    bytes added beyond the old end, outside the written range, are zero. *)
Theorem setArg_growth (c : arg_call) (ei : CHIPExecItem) :
  call_ok c ->
  exists ei',
    setArg (call_arg c) (call_size c) (call_offset c) ei = Ok ei'
    /\ Z.of_nat (length (getArgData ei'))
       = (if call_offset c + call_size c <=? Z.of_nat (length (arg_data ei))
          then Z.of_nat (length (arg_data ei))
          else call_offset c + call_size c + 1024)
    /\ (forall i, (length (arg_data ei) <= i < length (getArgData ei'))%nat ->
          ~ (call_offset c <= Z.of_nat i < call_offset c + call_size c) ->
          getArgData ei' !! i = Some Byte.x00).
Proof.
  intros Hok. destruct (setArg_unfold c ei Hok) as [Hun Hd].
  eexists. split; [exact Hun|]. unfold getArgData. simpl.
  destruct Hok as (Ho & Hs & Hsmall & Hlen).
  rewrite length_memcpy by lia.
  destruct (Z.gtb_spec (call_offset c + call_size c) (Z.of_nat (length (arg_data ei))))
    as [Hgt|Hle].
  - replace (call_offset c + call_size c <=? Z.of_nat (length (arg_data ei)))
      with false by (symmetry; apply Z.leb_gt; lia).
    rewrite length_resize. split; [lia|].
    intros i Hi Hout. rewrite memcpy_lookup by lia.
    destruct (decide _) as [Hin|_]; [lia|].
    unfold resize. rewrite take_ge by lia.
    rewrite lookup_app_r by lia. apply lookup_replicate_2. lia.
  - replace (call_offset c + call_size c <=? Z.of_nat (length (arg_data ei)))
      with true by (symmetry; apply Z.leb_le; lia).
    split; [reflexivity|]. intros i Hi. lia.
Qed.

Lemma setArg_growth_witness :
  let c := {| call_arg := [Byte.x0a; Byte.x0b]; call_size := 2; call_offset := 6 |} in
  let ei := {| shared_mem := 0; chip_queue := 1;
               arg_data := [Byte.x01; Byte.x02; Byte.x03; Byte.x04];
               offset_sizes := [(0, 4)] |} in
  exists ei',
    setArg (call_arg c) (call_size c) (call_offset c) ei = Ok ei'
    /\ Z.of_nat (length (getArgData ei'))
       = (if call_offset c + call_size c <=? Z.of_nat (length (arg_data ei))
          then Z.of_nat (length (arg_data ei))
          else call_offset c + call_size c + 1024)
    /\ (forall i, (length (arg_data ei) <= i < length (getArgData ei'))%nat ->
          ~ (call_offset c <= Z.of_nat i < call_offset c + call_size c) ->
          getArgData ei' !! i = Some Byte.x00).
Proof.
  intros c ei. apply (setArg_growth c ei).
  unfold call_ok, size_max. simpl. lia.
Defined.

Lemma setArg_offset_sizes arg size offset ei ei' :
  setArg arg size offset ei = Ok ei' ->
  offset_sizes ei' = offset_sizes ei ++ [(offset, size)].
Proof.
  unfold setArg, bind. destruct (assert _); try discriminate.
  intros H. inversion H; subst. reflexivity.
Qed.

(** X21: The offset table records every call that returned, in call order,
    repeated ranges included. *)
Theorem setArgs_offset_table (calls : list arg_call) : forall ei ei',
  setArgs calls ei = Ok ei' ->
  offset_sizes ei'
  = offset_sizes ei ++ map (fun c => (call_offset c, call_size c)) calls.
Proof.
  induction calls as [|c rest IH]; intros ei ei' H; simpl in *.
  - inversion H; subst. rewrite app_nil_r. reflexivity.
  - destruct (setArg (call_arg c) (call_size c) (call_offset c) ei) as [ei1| |] eqn:E;
      try discriminate.
    simpl in H. apply IH in H. apply setArg_offset_sizes in E.
    rewrite H, E, <- app_assoc. reflexivity.
Qed.

Lemma setArgs_offset_table_witness :
  let calls := [ {| call_arg := [Byte.x0a; Byte.x0b]; call_size := 2; call_offset := 8 |};
                 {| call_arg := [Byte.x01]; call_size := 1; call_offset := 0 |};
                 {| call_arg := [Byte.x0c; Byte.x0d]; call_size := 2; call_offset := 8 |} ] in
  exists ei',
    setArgs calls (create 0 1) = Ok ei'
    /\ offset_sizes ei'
       = offset_sizes (create 0 1)
         ++ map (fun c => (call_offset c, call_size c)) calls.
Proof.
  intros calls. eexists. split; [vm_compute; reflexivity|].
  eapply (setArgs_offset_table calls (create 0 1)).
  vm_compute. reflexivity.
Defined.

End ExecItemMoreProps.

(** ** Device selection: when nothing is selected, and more devices *)

Module MatchingMoreProps.

Import Device Matching MatchingProps.

(** X22: The function leaves [matched_device] unassigned exactly when
    the request names none of the fourteen fields that the function
    compares (each of them zero) or no device meets every requested one
    of these fourteen fields.  In particular it does so on a backend
    without devices, for an all-zero request even though every device
    then qualifies, and for a request that names only other fields,
    such as [clockRate], whatever the devices offer. *)
Theorem findDeviceMatchingProps_unassigned (properties : hipDeviceProp_t)
        (B : CHIPBackend) :
  (findDeviceMatchingProps properties B = indeterminate
   <-> requested_compared properties = 0
       \/ Forall (fun d => ~ meets_compared properties d) (chip_devices B))
  /\ (requested_compared properties = 0
      <-> major properties = 0 /\ minor properties = 0
          /\ totalGlobalMem properties = 0 /\ sharedMemPerBlock properties = 0
          /\ maxThreadsPerBlock properties = 0 /\ totalConstMem properties = 0
          /\ multiProcessorCount properties = 0
          /\ maxThreadsPerMultiProcessor properties = 0
          /\ memoryClockRate properties = 0 /\ memoryBusWidth properties = 0
          /\ l2CacheSize properties = 0 /\ regsPerBlock properties = 0
          /\ maxSharedMemoryPerMultiProcessor properties = 0
          /\ warpSize properties = 0).
Proof.
  split.
  - unfold findDeviceMatchingProps.
    destruct (Z.eq_dec (requested_compared properties) 0) as [H0|Hne].
    + split; [auto|]. intros _.
      pose proof (device_loop_settled properties (chip_devices B) 0 indeterminate)
        as Hs.
      rewrite H0 in Hs. exact Hs.
    + pose proof (requested_compared_nonneg properties).
      rewrite device_loop_first by lia.
      destruct (list_find (meets_compared properties) (chip_devices B))
        as [[i d]|] eqn:Hf.
      * split; [discriminate|]. intros [?|Hall]; [contradiction|].
        apply list_find_Some in Hf as (Hl & Hm & _).
        rewrite Forall_forall in Hall.
        exfalso. apply (Hall d); [|exact Hm].
        apply list_elem_of_lookup. eauto.
      * split; [|reflexivity]. intros _. right.
        apply list_find_None in Hf. exact Hf.
  - apply requested_compared_spec.
Qed.

(** A request with every field zero selects nothing, whatever the
    devices. *)
Example zero_request_selects_nothing :
  findDeviceMatchingProps zero_props mixed = indeterminate.
Proof. reflexivity. Qed.

(** A request that names only [clockRate] selects nothing, although
    the only device offers twice the requested clock rate. *)
Example clockRate_request_selects_nothing :
  findDeviceMatchingProps (major_and_clockRate 0 1000) (one_clock 2000)
  = indeterminate.
Proof. reflexivity. Qed.

(** X23: Devices added at the end of the backend's list do not change a
    selection already made. *)
Theorem findDeviceMatchingProps_more_devices (properties : hipDeviceProp_t)
        (B : CHIPBackend) (more : list CHIPDevice) (p : nat) :
  findDeviceMatchingProps properties B = points_to p ->
  findDeviceMatchingProps properties
    {| chip_devices := chip_devices B ++ more; active_dev := active_dev B |}
  = points_to p.
Proof.
  unfold findDeviceMatchingProps. simpl. intros H.
  destruct (Z.eq_dec (requested_compared properties) 0) as [H0|Hne].
  - pose proof (device_loop_settled properties (chip_devices B) 0 indeterminate) as Hs.
    rewrite H0 in Hs. rewrite Hs in H. discriminate.
  - pose proof (requested_compared_nonneg properties).
    rewrite device_loop_first in * by lia.
    destruct (list_find (meets_compared properties) (chip_devices B)) as [[i d]|] eqn:Hf;
      [|discriminate].
    rewrite (list_find_app_l _ _ more _ _ Hf). exact H.
Qed.

Lemma findDeviceMatchingProps_more_devices_witness :
  findDeviceMatchingProps (only_major 3)
    {| chip_devices := chip_devices mixed ++ [device_with_major 3 9];
       active_dev := active_dev mixed |}
  = points_to 1.
Proof.
  apply (findDeviceMatchingProps_more_devices (only_major 3) mixed
           [device_with_major 3 9] 1%nat).
  reflexivity.
Defined.

End MatchingMoreProps.

(** ** Queue lists and registered modules *)

Module QueuesProps.

Import Queues.

Lemma erase_first_fresh x l : x ∉ l -> erase_first x (l ++ [x]) = l.
Proof.
  induction l as [|y l IH]; intros Hx; simpl.
  - rewrite Z.eqb_refl. reflexivity.
  - apply not_elem_of_cons in Hx as [Hne Hx].
    replace (y =? x) with false by (symmetry; apply Z.eqb_neq; congruence).
    rewrite IH by exact Hx. reflexivity.
Qed.

Lemma erase_first_length x l :
  x ∈ l -> S (length (erase_first x l)) = length l.
Proof.
  induction l as [|y l IH]; intros Hx; simpl.
  - apply elem_of_nil in Hx. contradiction.
  - destruct (Z.eqb_spec y x) as [->|Hne]; [reflexivity|].
    simpl. f_equal. apply IH.
    apply elem_of_cons in Hx as [->|Hx]; [contradiction|exact Hx].
Qed.

Lemma erase_first_subset x y l : y ∈ erase_first x l -> y ∈ l.
Proof.
  induction l as [|z l IH]; simpl; [auto|].
  destruct (z =? x).
  - intros H. right. exact H.
  - intros H. apply elem_of_cons in H as [->|H]; [left|right; auto].
Qed.

Lemma erase_first_NoDup x l : NoDup l -> NoDup (erase_first x l) /\ x ∉ erase_first x l.
Proof.
  induction 1 as [|y l Hy Hnd IH]; simpl.
  - split; [constructor|apply not_elem_of_nil].
  - destruct (Z.eqb_spec y x) as [->|Hne].
    + split; assumption.
    + destruct IH as [IH1 IH2]. split.
      * constructor; [|exact IH1]. intros H. apply Hy. eapply erase_first_subset; eauto.
      * apply not_elem_of_cons. split; [congruence|exact IH2].
Qed.

(** X24: [CHIPDevice::addQueue] never makes a duplicate: on a list without
    duplicates the result has none, holds the queue, and keeps the
    queues that were there, in order, in front; adding the same queue
    again changes nothing. *)
Theorem Device_addQueue_no_duplicates (q : Z) (chip_queues : list Z) :
  NoDup chip_queues ->
  NoDup (Device_addQueue q chip_queues)
  /\ q ∈ Device_addQueue q chip_queues
  /\ chip_queues `prefix_of` Device_addQueue q chip_queues
  /\ Device_addQueue q (Device_addQueue q chip_queues) = Device_addQueue q chip_queues.
Proof.
  intros Hnd. unfold Device_addQueue.
  destruct (bool_decide (q ∈ chip_queues)) eqn:E.
  - rewrite E. apply bool_decide_eq_true_1 in E.
    split; [exact Hnd|]. split; [exact E|]. split; [|reflexivity].
    exists []. rewrite app_nil_r. reflexivity.
  - apply bool_decide_eq_false_1 in E.
    assert (Hin : q ∈ chip_queues ++ [q]) by (apply elem_of_app; right; left).
    rewrite (bool_decide_eq_true_2 _ Hin).
    split; [|split; [exact Hin|split; [|reflexivity]]].
    + apply NoDup_app. split; [exact Hnd|]. split; [|apply NoDup_singleton].
      intros x Hx Hx'. apply list_elem_of_singleton in Hx'. subst. contradiction.
    + exists [q]. reflexivity.
Qed.

Lemma Device_addQueue_no_duplicates_witness :
  NoDup (Device_addQueue 7 [3; 5])
  /\ 7 ∈ Device_addQueue 7 [3; 5]
  /\ [3; 5] `prefix_of` Device_addQueue 7 [3; 5]
  /\ Device_addQueue 7 (Device_addQueue 7 [3; 5]) = Device_addQueue 7 [3; 5].
Proof.
  apply (Device_addQueue_no_duplicates 7 [3; 5]).
  apply (bool_decide_unpack (NoDup [3; 5])). vm_compute. exact I.
Defined.

(** X25: [CHIPDevice::removeQueue] throws [hipErrorUnknown] for a queue that
    is not in the list and otherwise returns [true] with one entry
    fewer; on a list without duplicates the queue is gone afterwards;
    removing a queue right after adding it to a list that did not have
    it gives the list back. *)
Theorem Device_removeQueue_spec (q : Z) (chip_queues : list Z) :
  NoDup chip_queues ->
  ((q ∉ chip_queues) ->
     Device_removeQueue q chip_queues = Throw hipErrorUnknown
     /\ Device_removeQueue q (Device_addQueue q chip_queues) = Ok (true, chip_queues))
  /\ (q ∈ chip_queues ->
      exists rest,
        Device_removeQueue q chip_queues = Ok (true, rest)
        /\ S (length rest) = length chip_queues
        /\ (q ∉ rest) /\ NoDup rest
        /\ forall x, x ∈ rest -> x ∈ chip_queues).
Proof.
  intros Hnd. unfold Device_removeQueue, Device_addQueue. split.
  - intros Hq. rewrite (bool_decide_eq_false_2 _ Hq). split; [reflexivity|].
    assert (Hin : q ∈ chip_queues ++ [q]) by (apply elem_of_app; right; left).
    rewrite (bool_decide_eq_true_2 _ Hin), erase_first_fresh by exact Hq.
    reflexivity.
  - intros Hq. rewrite (bool_decide_eq_true_2 _ Hq).
    destruct (erase_first_NoDup q chip_queues Hnd) as [H1 H2].
    eexists. split; [reflexivity|]. split; [apply erase_first_length; exact Hq|].
    split; [exact H2|]. split; [exact H1|].
    intros x. apply erase_first_subset.
Qed.

Lemma Device_removeQueue_spec_witness :
  ((7 ∉ [3; 5]) ->
     Device_removeQueue 7 [3; 5] = Throw hipErrorUnknown
     /\ Device_removeQueue 7 (Device_addQueue 7 [3; 5]) = Ok (true, [3; 5]))
  /\ (7 ∈ [3; 5] ->
      exists rest,
        Device_removeQueue 7 [3; 5] = Ok (true, rest)
        /\ S (length rest) = length [3; 5]
        /\ (7 ∉ rest) /\ NoDup rest
        /\ forall x, x ∈ rest -> x ∈ [3; 5]).
Proof.
  apply (Device_removeQueue_spec 7 [3; 5]).
  apply (bool_decide_unpack (NoDup [3; 5])). vm_compute. exact I.
Defined.

(** X26: Registered modules: unregistering a module that is not registered
    changes nothing; unregistering right after registering a module that
    was not registered gives the list back; unregistering a registered
    module removes one entry, so a module registered twice is still
    registered after one unregistration. *)
Theorem unregisterModuleStr_spec (mod_str : Z) (modules_str : list Z) :
  ((mod_str ∉ modules_str) ->
     unregisterModuleStr mod_str modules_str = modules_str
     /\ unregisterModuleStr mod_str (registerModuleStr mod_str modules_str)
        = modules_str)
  /\ (mod_str ∈ modules_str ->
      S (length (unregisterModuleStr mod_str modules_str)) = length modules_str
      /\ mod_str ∈ unregisterModuleStr mod_str
                     (registerModuleStr mod_str modules_str)).
Proof.
  unfold unregisterModuleStr, registerModuleStr. split.
  - intros Hq. rewrite (bool_decide_eq_false_2 _ Hq). split; [reflexivity|].
    assert (Hin : mod_str ∈ modules_str ++ [mod_str])
      by (apply elem_of_app; right; left).
    rewrite (bool_decide_eq_true_2 _ Hin). apply erase_first_fresh. exact Hq.
  - intros Hq. rewrite (bool_decide_eq_true_2 _ Hq).
    split; [apply erase_first_length; exact Hq|].
    assert (Hin : mod_str ∈ modules_str ++ [mod_str])
      by (apply elem_of_app; right; left).
    rewrite (bool_decide_eq_true_2 _ Hin).
    clear Hin. induction modules_str as [|y l IH]; simpl.
    + apply elem_of_nil in Hq. contradiction.
    + destruct (Z.eqb_spec y mod_str) as [->|Hne].
      * apply elem_of_app. right. left.
      * right. apply IH.
        apply elem_of_cons in Hq as [->|Hq]; [contradiction|exact Hq].
Qed.

End QueuesProps.

(** ** The event pools of a Level Zero context *)

Module EventPoolProps.

Import EventPool.

Lemma wrap64_add_l a b : wrap64 (wrap64 a + b) = wrap64 (a + b).
Proof. unfold wrap64, size_max. apply Z.add_mod_idemp_l. lia. Qed.

Lemma wrap64_mul_l a b : wrap64 (wrap64 a * b) = wrap64 (a * b).
Proof. unfold wrap64, size_max. apply Z.mul_mod_idemp_l. lia. Qed.

Section Pools.

Context {Event : Type}.
Variable getEvent : LZEventPool Event -> Event * LZEventPool Event.
Variable new_pool : Z -> LZEventPool Event.

(** The scan finds nothing exactly when no pool has an event. *)
Lemma scan_pools_None pools :
  scan_pools getEvent pools = None
  <-> Forall (fun p => EventAvailable p = false) pools.
Proof.
  induction pools as [|p rest IH]; simpl.
  - split; auto.
  - destruct (EventAvailable p) eqn:E.
    + destruct (getEvent p). split; [discriminate|].
      intros H. inversion H; subst. congruence.
    + destruct (scan_pools getEvent rest) as [[ev rest']|].
      * split; [discriminate|]. intros H. inversion H as [|? ? _ Hr]; subst.
        apply IH in Hr. discriminate.
      * split; [|reflexivity]. intros _. constructor; [exact E|]. apply IH. reflexivity.
Qed.

(** What the scan finds is taken from the first pool that has an event,
    and only that pool is changed. *)
Lemma scan_pools_Some pools : forall ev pools',
  scan_pools getEvent pools = Some (ev, pools') ->
  exists i p,
    pools !! i = Some p /\ EventAvailable p = true
    /\ (forall j q, (j < i)%nat -> pools !! j = Some q -> EventAvailable q = false)
    /\ ev = fst (getEvent p)
    /\ pools' = <[i := snd (getEvent p)]> pools.
Proof.
  induction pools as [|p rest IH]; intros ev pools' H; simpl in H; [discriminate|].
  destruct (EventAvailable p) eqn:E.
  - destruct (getEvent p) as [ev0 p'] eqn:G. inversion H; subst.
    exists 0%nat, p. split; [reflexivity|]. split; [exact E|].
    split; [intros j q Hj; lia|]. rewrite G. auto.
  - destruct (scan_pools getEvent rest) as [[ev0 rest']|] eqn:Hs; [|discriminate].
    inversion H; subst.
    destruct (IH ev rest' eq_refl) as (i & q & Hl & Hq & Hfirst & Hev & Hrest).
    exists (S i), q. split; [exact Hl|]. split; [exact Hq|]. split.
    + intros j r Hj Hr. destruct j as [|j]; simpl in Hr.
      * inversion Hr; subst. exact E.
      * apply (Hfirst j r); [lia|exact Hr].
    + split; [exact Hev|]. simpl. rewrite Hrest. reflexivity.
Qed.

(** X27: One request: an event is taken from the first pool that has one
    available, the number of pools and the size of the next pool are
    unchanged, and [EventsReused_] goes up by one; only when no pool has
    an event is a new pool made, of the current [EventPoolSize_], added
    at the end, and [EventPoolSize_] doubled. *)
Theorem getEventFromPool_reuses_before_growing (c : CHIPContextLevel0 Event) :
  let ev := fst (getEventFromPool getEvent new_pool c) in
  let c' := snd (getEventFromPool getEvent new_pool c) in
  EventsRequested_ c' = wrap64 (EventsRequested_ c + 1)
  /\ ((exists p, p ∈ EventPools_ c /\ EventAvailable p = true) ->
      exists i p,
        EventPools_ c !! i = Some p /\ EventAvailable p = true
        /\ (forall j q, (j < i)%nat -> EventPools_ c !! j = Some q ->
              EventAvailable q = false)
        /\ ev = fst (getEvent p)
        /\ EventPools_ c' = <[i := snd (getEvent p)]> (EventPools_ c)
        /\ EventPoolSize_ c' = EventPoolSize_ c
        /\ EventsReused_ c' = wrap64 (EventsReused_ c + 1))
  /\ (Forall (fun p => EventAvailable p = false) (EventPools_ c) ->
      let fresh := new_pool (to_unsigned_int (EventPoolSize_ c)) in
      ev = fst (getEvent fresh)
      /\ EventPools_ c' = EventPools_ c ++ [snd (getEvent fresh)]
      /\ EventPoolSize_ c' = wrap64 (EventPoolSize_ c * 2)
      /\ EventsReused_ c' = EventsReused_ c).
Proof.
  unfold getEventFromPool.
  destruct (scan_pools getEvent (EventPools_ c)) as [[ev pools']|] eqn:E; simpl.
  - split; [reflexivity|]. split.
    + intros _. destruct (scan_pools_Some _ _ _ E) as (i & p & H1 & H2 & H3 & H4 & H5).
      exists i, p. repeat split; auto.
    + intros Hall. apply scan_pools_None in Hall. congruence.
  - destruct (getEvent (new_pool (to_unsigned_int (EventPoolSize_ c)))) as [ev p'] eqn:G.
    simpl. split; [reflexivity|]. split.
    + intros (p & Hin & Hp). apply scan_pools_None in E.
      rewrite Forall_forall in E. rewrite (E p Hin) in Hp. discriminate.
    + intros _. auto.
Qed.

Lemma scan_pools_length pools ev pools' :
  scan_pools getEvent pools = Some (ev, pools') -> length pools' = length pools.
Proof.
  intros H. apply scan_pools_Some in H as (i & p & _ & _ & _ & _ & ->).
  apply length_insert.
Qed.

(** X28: The counters after any number of requests on a context as
    constructed, whatever the pools hand out (all modulo 2^64):
    [EventsRequested_] is the number of requests; every request either
    reused an event or created a pool, so reuses plus pools make up the
    requests; the size of the next pool is two to the number of pools
    created; and there are never more pools than requests. *)
Theorem event_pool_counters (n : nat) :
  let c := after_requests getEvent new_pool n fresh_context in
  EventsRequested_ c = wrap64 (Z.of_nat n)
  /\ wrap64 (EventsReused_ c + Z.of_nat (length (EventPools_ c))) = wrap64 (Z.of_nat n)
  /\ EventPoolSize_ c = wrap64 (2 ^ Z.of_nat (length (EventPools_ c)))
  /\ (length (EventPools_ c) <= n)%nat.
Proof.
  induction n as [|n IH].
  - simpl. repeat split; reflexivity || lia.
  - simpl after_requests.
    set (c := after_requests getEvent new_pool n fresh_context) in *.
    destruct IH as (Hreq & Hsum & Hsize & Hlen).
    unfold getEventFromPool.
    destruct (scan_pools getEvent (EventPools_ c)) as [[ev pools']|] eqn:E.
    + simpl. rewrite (scan_pools_length _ _ _ E).
      split; [rewrite Hreq, wrap64_add_l; f_equal; lia|].
      split; [|split; [exact Hsize|lia]].
      rewrite wrap64_add_l.
      replace (EventsReused_ c + 1 + Z.of_nat (length (EventPools_ c)))
        with (EventsReused_ c + Z.of_nat (length (EventPools_ c)) + 1) by lia.
      rewrite <- wrap64_add_l, Hsum, wrap64_add_l. f_equal. lia.
    + destruct (getEvent (new_pool (to_unsigned_int (EventPoolSize_ c)))) as [ev p'].
      simpl. rewrite length_app. simpl.
      split; [rewrite Hreq, wrap64_add_l; f_equal; lia|].
      split; [|split; [|lia]].
      * replace (EventsReused_ c + Z.of_nat (length (EventPools_ c) + 1))
          with (EventsReused_ c + Z.of_nat (length (EventPools_ c)) + 1) by lia.
        rewrite <- wrap64_add_l, Hsum, wrap64_add_l. f_equal. lia.
      * rewrite Hsize, wrap64_mul_l. f_equal.
        replace (Z.of_nat (length (EventPools_ c) + 1))
          with (Z.of_nat (length (EventPools_ c)) + 1) by lia.
        rewrite Z.pow_add_r by lia. lia.
Qed.

End Pools.

(** Seven requests on numbered pools with nothing returned in between:
    pools of 1, 2 and 4 events are created and emptied, and the next pool
    would have 8. *)
Example seven_requests :
  let c := after_requests pop_event counting_pool 7 fresh_context in
  (map Size_ (EventPools_ c), map (length ∘ Events_) (EventPools_ c),
   EventsRequested_ c, EventsReused_ c, EventPoolSize_ c)
  = ([1; 2; 4], [0; 0; 0]%nat, 7, 4, 8).
Proof. vm_compute. reflexivity. Qed.

End EventPoolProps.

(** ** Deferred actions of an event *)

Module EventMoreProps.

Import Event EventProps.

Section Actions.

Context {W : Type}.

Lemma addAction_all (actions : list (ActionFn W)) : forall (e : CHIPEvent W),
  foldl (fun e' Action => addAction Action e') e actions
  = with_actions e (Actions_ e ++ actions).
Proof.
  induction actions as [|a rest IH]; intros e; simpl.
  - rewrite app_nil_r. destruct e. reflexivity.
  - rewrite IH. unfold addAction, with_actions. simpl.
    rewrite <- app_assoc. reflexivity.
Qed.

(** X29: Actions attached one after the other to a finished event are run by
    [doActions] after the ones already attached, in the order they were
    attached, each once; attaching changes neither the status nor the
    handle of the event, and [doActions] leaves the event with no action
    attached. *)
Theorem doActions_in_attachment_order (e : CHIPEvent W)
        (actions : list (ActionFn W)) (w : W) :
  isFinished e = true ->
  let e' := foldl (fun e' Action => addAction Action e') e actions in
  event_status e' = event_status e
  /\ native_handle e' = native_handle e
  /\ doActions e' w
     = Ok (with_actions e [], foldl (fun w' Action => Action w') w (Actions_ e ++ actions)).
Proof.
  intros Hf. simpl. rewrite addAction_all.
  split; [reflexivity|]. split; [reflexivity|].
  unfold doActions, isFinished in *. simpl. rewrite Hf. reflexivity.
Qed.

End Actions.

Lemma doActions_in_attachment_order_witness :
  let e := addAction (log_action 1) (completed_event 7) in
  let e' := foldl (fun e' Action => addAction Action e') e
                  [log_action 2; log_action 3] in
  event_status e' = event_status e
  /\ native_handle e' = native_handle e
  /\ doActions e' [0%nat]
     = Ok (with_actions e [],
           foldl (fun w' Action => Action w') [0%nat]
                 (Actions_ e ++ [log_action 2; log_action 3])).
Proof.
  intros e. apply (doActions_in_attachment_order e [log_action 2; log_action 3] [0%nat]).
  reflexivity.
Defined.

(** The log after the three actions: 1, 2, 3 after what was there. *)
Example three_actions_in_order :
  (snd <$> match doActions
                   (foldl (fun e' Action => addAction Action e')
                          (addAction (log_action 1) (completed_event 7))
                          [log_action 2; log_action 3]) [0%nat] with
           | Ok r => Some r | _ => None end)
  = Some [0; 1; 2; 3]%nat.
Proof. reflexivity. Qed.

End EventMoreProps.
